(** * Orchids build-session page: a shallow embedding of [frontend/app/page.tsx]

    The development models the state of the [AIWebsiteBuilder] component, the
    handlers it installs ([handleReset], [handleClone] with the four WebSocket
    callbacks, [handleInitialSubmit], [handleModificationSubmit]) and the
    [fileTree] reduction of [CodeEditorPanel], and states the properties of the
    build session over them.

    Conventions.
    - A JavaScript string is a Rocq [string]; the character [c] stands for the
      UTF-16 code unit of the same number (0..255).
    - React state is the record [State]; one value of it is also what a render
      of the component binds to its constants.  A callback created during a
      render reads the constants of THAT render; only the functional updaters
      ([setX (fun prev => ...)]) and the ref [websocketRef] see the current
      value.  Handlers therefore take the render they close over explicitly.
    - A handler run by a user event (a form submit, the reset button, a
      click in the file tree) is the one of the render of the current state:
      React has rendered between two user events.  The callbacks of a socket
      are created once, by [handleClone], and keep the render of that call.
    - A handler runs to completion; its setter calls take effect together.
    - A parsed frame is modelled with the fields the protocol gives it:
      strings, [old_content] optional.
    - [Date.now()] is an oracle: the n-th call made by the page returns
      [Date_now n]. *)

From Stdlib Require Import ZArith DecimalString DecimalZ Ascii String.
From stdpp Require Import base tactics option list strings.

Open Scope string_scope.
Open Scope list_scope.

(** ** JavaScript built-ins used by the page *)

Module JS.

(** ECMAScript WhiteSpace and LineTerminator code units below 256:
    TAB, LF, VT, FF, CR, SPACE and NBSP.  This is the set [String.prototype.trim]
    strips and the set the regular-expression class [\s] matches. *)
Definition isWhiteSpace (c : ascii) : bool :=
  let n := nat_of_ascii c in
  (Nat.leb 9 n && Nat.leb n 13) || Nat.eqb n 32 || Nat.eqb n 160.

(** Truthiness of a string: every string but the empty one. *)
Definition truthy (s : string) : bool := negb (String.eqb s "").

Fixpoint trimStart (s : string) : string :=
  match s with
  | String c s' => if isWhiteSpace c then trimStart s' else s
  | EmptyString => EmptyString
  end.

Fixpoint trimEnd (s : string) : string :=
  match s with
  | String c s' =>
      let r := trimEnd s' in
      if isWhiteSpace c && String.eqb r "" then EmptyString else String c r
  | EmptyString => EmptyString
  end.

(** [s.trim()] *)
Definition trim (s : string) : string := trimEnd (trimStart s).

(** [n.toString()] for an integer [n]. *)
Definition toString (z : Z) : string := NilZero.string_of_int (Z.to_int z).

(** [s.split(sep)] for a one-character separator: one more piece than
    there are separators, never the empty array. *)
Fixpoint split (sep : ascii) (s : string) : list string :=
  match s with
  | EmptyString => [EmptyString]
  | String c s' =>
      if Ascii.eqb c sep then EmptyString :: split sep s'
      else match split sep s' with
           | piece :: pieces => String c piece :: pieces
           | [] => [String c EmptyString]
           end
  end.

(** [p] is a prefix of [s]: the rest of [s] after it. *)
Fixpoint stripPrefix (p s : string) : option string :=
  match p with
  | EmptyString => Some s
  | String a p' =>
      match s with
      | String b s' => if Ascii.eqb a b then stripPrefix p' s' else None
      | EmptyString => None
      end
  end.

(** The longest run of non-whitespace characters at the head of [s]:
    what a greedy [[^\s]*] consumes. *)
Fixpoint takeNonSpace (s : string) : string :=
  match s with
  | String c s' => if isWhiteSpace c then EmptyString else String c (takeNonSpace s')
  | EmptyString => EmptyString
  end.

(** [[^\s]+] after a matched scheme: at least one character. *)
Definition schemeThenBody (scheme rest : string) : option string :=
  let body := takeNonSpace rest in
  if truthy body then Some (scheme +:+ body) else None.

(** The regular expression [/(https?:\/\/[^\s]+)/] tried at the first
    character of [s].  The optional [s] is tried first; when [https://]
    is not there, [http://] is. *)
Definition urlRegex_here (s : string) : option string :=
  match stripPrefix "https://" s with
  | Some rest => schemeThenBody "https://" rest
  | None =>
      match stripPrefix "http://" s with
      | Some rest => schemeThenBody "http://" rest
      | None => None
      end
  end.

(** [s.match(urlRegex)]: the match at the leftmost position that has one;
    the result is [foundUrl[0]], [None] is [null]. *)
Fixpoint match_urlRegex (s : string) : option string :=
  match urlRegex_here s with
  | Some u => Some u
  | None =>
      match s with
      | String _ s' => match_urlRegex s'
      | EmptyString => None
      end
  end.

End JS.

(** ** Data model *)

Module Message.
Inductive Role := user | assistant.
Record t := mk { id : string; role : Role; content : string }.
End Message.

Module FileNode.
Record t := mk { path : string; content : string; oldContent : option string }.
End FileNode.

(** [Map<string, FileNode>]: keys are kept in the order of their first
    insertion, which is the order [files.keys()] yields. *)
Definition Files := list (string * FileNode.t).

Fixpoint Map_get (m : Files) (key : string) : option FileNode.t :=
  match m with
  | (k, v) :: m' => if String.eqb k key then Some v else Map_get m' key
  | [] => None
  end.

(** [m.set(key, value)]: an existing key keeps its position. *)
Fixpoint Map_set (m : Files) (key : string) (value : FileNode.t) : Files :=
  match m with
  | (k, v) :: m' =>
      if String.eqb k key then (k, value) :: m' else (k, v) :: Map_set m' key value
  | [] => [(key, value)]
  end.

Definition Map_keys (m : Files) : list string := map fst m.

(** The parsed inbound frame's [data] object, as far as the page reads it.  A
    branch reads only the fields of its event; [old_content] may be absent. *)
Record Data := mkData {
  message : string;
  token : string;
  path : string;
  content : string;
  old_content : option string;
  status : string
}.

(** The outcome of [JSON.parse(event.data)] followed by the destructuring
    [const { event: eventType, data } = parsedEvent]. *)
Inductive Frame :=
| Unparsable                                   (* JSON.parse throws *)
| Parsed (eventType : string) (data : Data).

(** Outbound frames: [JSON.stringify({ url })] and
    [JSON.stringify({ type: "modification", prompt })]. *)
Inductive Outbound :=
| Start (url : string)
| Modify (prompt : string).

(** The React state of [AIWebsiteBuilder] together with the state [useChat]
    holds ([messages], [input]). *)
Record State := mkState {
  isBuilding : bool;
  files : Files;
  selectedFile : string;
  isLive : bool;
  aiResponse : string;
  messages : list Message.t;
  input : string
}.

Inductive ReadyState := CONNECTING | OPEN | CLOSING | CLOSED.

(** A [WebSocket] created by [handleClone]: its ready state, the [url]
    argument its [onopen] closes over, the render whose constants its
    [onmessage] and [onclose] close over, and the frames sent on it. *)
Record WebSocket := mkWebSocket {
  readyState : ReadyState;
  url : string;
  render : State;
  sent : list Outbound
}.

(** The page: current state, every socket created so far (in creation
    order), the socket [websocketRef.current] points to, and the number of
    [Date.now()] calls made. *)
Record World := mkWorld {
  page : State;
  sockets : list WebSocket;
  websocketRef : option nat;
  clock : nat
}.

Definition initialState : State :=
  mkState false [] "" false "" [] "".

Definition initialWorld : World :=
  mkWorld initialState [] None 0.

(** The session state of the specification, read off the two flags. *)
Inductive SessionState := Idle | Building | Live.

Definition sessionState (st : State) : SessionState :=
  if isBuilding st then (if isLive st then Live else Building) else Idle.

(** ** State setters

    [setX v] of [useState]/[useChat]; the functional form [setX (prev => ...)]
    takes the updater, which React applies to the state current at that time. *)

Definition setIsBuilding (b : bool) (st : State) : State :=
  mkState b (files st) (selectedFile st) (isLive st) (aiResponse st) (messages st) (input st).

Definition setFiles (f : Files -> Files) (st : State) : State :=
  mkState (isBuilding st) (f (files st)) (selectedFile st) (isLive st) (aiResponse st)
          (messages st) (input st).

Definition setSelectedFile (p : string) (st : State) : State :=
  mkState (isBuilding st) (files st) p (isLive st) (aiResponse st) (messages st) (input st).

Definition setIsLive (b : bool) (st : State) : State :=
  mkState (isBuilding st) (files st) (selectedFile st) b (aiResponse st) (messages st) (input st).

Definition setAiResponse (f : string -> string) (st : State) : State :=
  mkState (isBuilding st) (files st) (selectedFile st) (isLive st) (f (aiResponse st))
          (messages st) (input st).

Definition setMessages (f : list Message.t -> list Message.t) (st : State) : State :=
  mkState (isBuilding st) (files st) (selectedFile st) (isLive st) (aiResponse st)
          (f (messages st)) (input st).

Definition setInput (s : string) (st : State) : State :=
  mkState (isBuilding st) (files st) (selectedFile st) (isLive st) (aiResponse st)
          (messages st) s.

(** A state update seen from the page. *)
Definition update (f : State -> State) (w : World) : World :=
  mkWorld (f (page w)) (sockets w) (websocketRef w) (clock w).

(** [websocketRef.current], dereferenced. *)
Definition current (w : World) : option WebSocket :=
  match websocketRef w with
  | Some i => sockets w !! i
  | None => None
  end.

Definition ReadyState_eqb (a b : ReadyState) : bool :=
  match a, b with
  | CONNECTING, CONNECTING | OPEN, OPEN | CLOSING, CLOSING | CLOSED, CLOSED => true
  | _, _ => false
  end.

(** [ws.send(frame)] on socket [i]. *)
Definition WebSocket_send (i : nat) (frame : Outbound) (w : World) : World :=
  mkWorld (page w)
          (alter (fun ws => mkWebSocket (readyState ws) (url ws) (render ws) (sent ws ++ [frame]))
                 i (sockets w))
          (websocketRef w) (clock w).

Definition setReadyState (rs : ReadyState) (i : nat) (w : World) : World :=
  mkWorld (page w)
          (alter (fun ws => mkWebSocket rs (url ws) (render ws) (sent ws)) i (sockets w))
          (websocketRef w) (clock w).

(** [ws.close()]: starts the closing handshake unless the socket is already
    closing or closed. *)
Definition WebSocket_close (ws : WebSocket) : WebSocket :=
  match readyState ws with
  | CLOSING | CLOSED => ws
  | _ => mkWebSocket CLOSING (url ws) (render ws) (sent ws)
  end.

Definition defaultUrl : string :=
  "https://vercel.com/templates/next.js/nextjs-boilerplate".

Definition noUrlNotice : string :=
  "No URL detected. Cloning a default Next.js boilerplate from Vercel as an example.".

(** ** The handlers of [AIWebsiteBuilder] *)

Section Handlers.

(** The n-th call of [Date.now()] returns [Date_now n]. *)
Variable Date_now : nat -> Z.

(** [setMessages((prev) => [...prev, { id: Date.now().toString(), role, content }])] *)
Definition pushMessage (role : Message.Role) (content : string) (w : World) : World :=
  let id := JS.toString (Date_now (clock w)) in
  mkWorld (setMessages (fun prev => prev ++ [Message.mk id role content]) (page w))
          (sockets w) (websocketRef w) (S (clock w)).

(** The block
    [if (aiResponse) { setMessages(... content: aiResponse ...); setAiResponse("") }]
    of the [log] and [status] branches and of [ws.onclose].  [aiResponse] is
    the constant of the render [r] the callback was created in. *)
Definition flushAiResponse (r : State) (w : World) : World :=
  if JS.truthy (aiResponse r)
  then update (setAiResponse (fun _ => "")) (pushMessage Message.assistant (aiResponse r) w)
  else w.

(** [ws.onopen], for socket [i]. *)
Definition ws_onopen (i : nat) (w : World) : World :=
  match sockets w !! i with
  | Some ws => WebSocket_send i (Start (url ws)) w
  | None => w
  end.

(** [ws.onmessage].  [r] is the render [handleClone] was called in: the
    tests [if (aiResponse)] and [if (!selectedFile)] read its constants. *)
Definition ws_onmessage (r : State) (frame : Frame) (w : World) : World :=
  match frame with
  | Unparsable => w
  | Parsed eventType data =>
      if String.eqb eventType "log" then
        pushMessage Message.assistant (message data) (flushAiResponse r w)
      else if String.eqb eventType "ai_token" then
        update (setAiResponse (fun prev => prev +:+ token data)) w
      else if String.eqb eventType "file_create" || String.eqb eventType "file_update" then
        let w1 :=
          update (setFiles (fun prev =>
            Map_set prev (path data)
              (FileNode.mk (path data) (content data)
                 (if String.eqb eventType "file_update"
                  then old_content data
                  else FileNode.content <$> Map_get prev (path data))))) w in
        if negb (JS.truthy (selectedFile r))
        then update (setSelectedFile (path data)) w1
        else w1
      else if String.eqb eventType "status" && String.eqb (status data) "ready" then
        flushAiResponse r (update (setIsLive true) w)
      else w
  end.

(** [ws.onerror]: [console.error] only. *)
Definition ws_onerror (w : World) : World := w.

(** [ws.onclose] *)
Definition ws_onclose (r : State) (w : World) : World :=
  flushAiResponse r w.

(** [handleClone(url)], called in render [r]. *)
Definition handleClone (r : State) (url : string) (w : World) : World :=
  let w1 := update (setIsBuilding true) w in
  mkWorld (page w1)
          (sockets w1 ++ [mkWebSocket CONNECTING url r []])
          (Some (length (sockets w1)))
          (clock w1).

(** [handleInitialSubmit], the submit handler of render [r]. *)
Definition handleInitialSubmit (r : State) (w : World) : World :=
  let w1 :=
    if JS.truthy (JS.trim (input r)) then pushMessage Message.user (input r) w else w in
  let w2 :=
    match JS.match_urlRegex (input r) with
    | Some foundUrl => handleClone r foundUrl w1
    | None => pushMessage Message.assistant noUrlNotice (handleClone r defaultUrl w1)
    end in
  update (setInput "") w2.

(** [handleModificationSubmit], the submit handler of render [r]. *)
Definition handleModificationSubmit (r : State) (w : World) : World :=
  let blank := negb (JS.truthy (JS.trim (input r))) in
  let noSocket := match current w with Some _ => false | None => true end in
  let notOpen :=
    match current w, websocketRef w with
    | Some ws, Some _ => negb (ReadyState_eqb (readyState ws) OPEN)
    | _, _ => true
    end in
  if blank || noSocket || notOpen then w
  else
    match websocketRef w with
    | Some i =>
        let userMessage := input r in
        let w1 := pushMessage Message.user userMessage w in
        let w2 := WebSocket_send i (Modify userMessage) w1 in
        update (setInput "") w2
    | None => w
    end.

End Handlers.

(** [handleReset] *)
Definition handleReset (w : World) : World :=
  let w1 :=
    match websocketRef w with
    | Some i => mkWorld (page w) (alter WebSocket_close i (sockets w)) None (clock w)
    | None => w
    end in
  let w2 := update (setIsBuilding false) w1 in
  let w3 := update (setFiles (fun _ => [])) w2 in
  let w4 := update (setSelectedFile "") w3 in
  let w5 := update (setIsLive false) w4 in
  let w6 := update (setAiResponse (fun _ => "")) w5 in
  update (setMessages (fun _ => [])) w6.

(** [const currentFileContent = files.get(selectedFile)?.content || ""] *)
Definition currentFileContent (st : State) : string :=
  match Map_get (files st) (selectedFile st) with
  | Some node => FileNode.content node
  | None => ""
  end.

(** [displayedMessages]: the timeline followed by the streaming text as a
    synthetic turn when there is some. *)
Definition displayedMessages (st : State) : list Message.t :=
  messages st ++
  (if JS.truthy (aiResponse st)
   then [Message.mk "ai-streaming" Message.assistant (aiResponse st)]
   else []).

(** ** The session as a transition system

    What can happen to the page: the user types, submits one of the two forms,
    presses the reset button or picks a file; a socket opens, delivers a
    frame, reports an error or closes.  The landing form is rendered only
    while [isBuilding] is false, the chat form, the reset button and the file
    tree only while it is true.  A socket delivers frames only while it is
    [OPEN]; it may report an error in any ready state, also once closed. *)

Inductive Action :=
| InputChange (value : string)
| InitialSubmit
| ModificationSubmit
| Reset
| FileSelect (path : string)
| WsOpen (i : nat)
| WsMessage (i : nat) (frame : Frame)
| WsError (i : nat)
| WsClose (i : nat).

Section Session.

Variable Date_now : nat -> Z.

Definition step (w : World) (a : Action) : option World :=
  match a with
  | InputChange value => Some (update (setInput value) w)
  | InitialSubmit =>
      if isBuilding (page w) then None
      else Some (handleInitialSubmit Date_now (page w) w)
  | ModificationSubmit =>
      if isBuilding (page w) then Some (handleModificationSubmit Date_now (page w) w)
      else None
  | Reset =>
      if isBuilding (page w) then Some (handleReset w) else None
  | FileSelect path =>
      if isBuilding (page w) then Some (update (setSelectedFile path) w) else None
  | WsOpen i =>
      match sockets w !! i with
      | Some ws =>
          if ReadyState_eqb (readyState ws) CONNECTING
          then Some (ws_onopen i (setReadyState OPEN i w))
          else None
      | None => None
      end
  | WsMessage i frame =>
      match sockets w !! i with
      | Some ws =>
          if ReadyState_eqb (readyState ws) OPEN
          then Some (ws_onmessage Date_now (render ws) frame w)
          else None
      | None => None
      end
  | WsError i =>
      match sockets w !! i with
      | Some ws => Some (ws_onerror w)
      | None => None
      end
  | WsClose i =>
      match sockets w !! i with
      | Some ws =>
          if ReadyState_eqb (readyState ws) CLOSED then None
          else Some (ws_onclose Date_now (render ws) (setReadyState CLOSED i w))
      | None => None
      end
  end.

Fixpoint run (w : World) (actions : list Action) : option World :=
  match actions with
  | [] => Some w
  | a :: rest =>
      match step w a with
      | Some w' => run w' rest
      | None => None
      end
  end.

(** The worlds a page can be in. *)
Definition reachable (w : World) : Prop :=
  exists actions, run initialWorld actions = Some w.

End Session.

(** Frames as the producer sends them (section 6 of the protocol). *)
Definition noData : Data := mkData "" "" "" "" None "".

Definition log (message : string) : Frame :=
  Parsed "log" (mkData message "" "" "" None "").

Definition ai_token (token : string) : Frame :=
  Parsed "ai_token" (mkData "" token "" "" None "").

Definition file_create (path content : string) : Frame :=
  Parsed "file_create" (mkData "" "" path content None "").

Definition file_update (path content : string) (old_content : option string) : Frame :=
  Parsed "file_update" (mkData "" "" path content old_content "").

Definition status_frame (status : string) : Frame :=
  Parsed "status" (mkData "" "" "" "" None status).

(** The event names [ws.onmessage] has a branch for. *)
Definition recognized (eventType : string) : bool :=
  String.eqb eventType "log" || String.eqb eventType "ai_token"
  || String.eqb eventType "file_create" || String.eqb eventType "file_update"
  || String.eqb eventType "status".

(** ** The file tree of [CodeEditorPanel] *)

Inductive NodeType := file | folder.

(** [{ name, type, children }]; [children] is [undefined] for a file. *)
#[warnings="-register-all"]
Inductive TreeNode :=
| Node (name : string) (type : NodeType) (children : option (list TreeNode)).

Definition name (n : TreeNode) : string := let 'Node s _ _ := n in s.
Definition type (n : TreeNode) : NodeType := let 'Node _ t _ := n in t.
Definition children (n : TreeNode) : option (list TreeNode) := let 'Node _ _ c := n in c.

(** [currentLevel.find((i) => i.name === part)] *)
Fixpoint find (part : string) (currentLevel : list TreeNode) : option TreeNode :=
  match currentLevel with
  | n :: rest => if String.eqb (name n) part then Some n else find part rest
  | [] => None
  end.

(** The level after the children of its first node named [part] have been
    mutated into [ch]: the node [find] returned is updated in place. *)
Fixpoint setChildren (part : string) (ch : list TreeNode) (currentLevel : list TreeNode)
  : list TreeNode :=
  match currentLevel with
  | n :: rest =>
      if String.eqb (name n) part then Node (name n) (type n) (Some ch) :: rest
      else n :: setChildren part ch rest
  | [] => []
  end.

(** The [forEach] over the parts of one path, from the level the cursor
    [currentLevel] is at.  [None] is the [TypeError] raised by
    [currentLevel.find] once the cursor has moved to the [children] of a file
    node, which are [undefined]. *)
Fixpoint addParts (parts : list string) (currentLevel : list TreeNode)
  : option (list TreeNode) :=
  match parts with
  | [] => Some currentLevel
  | part :: rest =>
      let isFile := match rest with [] => true | _ => false end in
      match find part currentLevel with
      | None =>
          if isFile then Some (currentLevel ++ [Node part file None])
          else
            match addParts rest [] with
            | Some ch => Some (currentLevel ++ [Node part folder (Some ch)])
            | None => None
            end
      | Some existing =>
          if isFile then Some currentLevel
          else
            match children existing with
            | Some below =>
                match addParts rest below with
                | Some ch => Some (setChildren part ch currentLevel)
                | None => None
                end
            | None => None
            end
      end
  end.

(** One step of the [reduce]: [(acc, path) => { ...; return acc }]. *)
Definition addPath (acc : option (list TreeNode)) (path : string) : option (list TreeNode) :=
  match acc with
  | Some level => addParts (JS.split "/" path) level
  | None => None
  end.

(** [Array.from(files.keys()).reduce(..., [])] *)
Definition projectKeys (keys : list string) : option (list TreeNode) :=
  fold_left addPath keys (Some []).

Definition fileTree (files : Files) : option (list TreeNode) :=
  projectKeys (Map_keys files).

(** The node a sequence of segments leads to, from a level down. *)
Fixpoint resolve (parts : list string) (level : list TreeNode) : option TreeNode :=
  match parts with
  | [] => None
  | part :: rest =>
      match find part level with
      | Some n =>
          match rest with
          | [] => Some n
          | _ => match children n with
                 | Some below => resolve rest below
                 | None => None
                 end
          end
      | None => None
      end
  end.

(** ** Reachable worlds: the invariant

    What holds of every world the page can be in: the renders captured by the
    sockets' callbacks all date from the landing screen, where nothing has
    streamed and no file is selected; on the landing screen there is no
    current socket; a socket the ref does not point to is closing or closed;
    the ref points to a socket that exists. *)
Record Inv (w : World) : Prop := mkInv {
  inv_render : forall i ws, sockets w !! i = Some ws ->
      aiResponse (render ws) = "" /\ selectedFile (render ws) = "";
  inv_landing : isBuilding (page w) = false ->
      aiResponse (page w) = "" /\ selectedFile (page w) = "" /\ websocketRef w = None;
  inv_stale : forall i ws, sockets w !! i = Some ws -> websocketRef w <> Some i ->
      readyState ws = CLOSING \/ readyState ws = CLOSED;
  inv_ref : forall i, websocketRef w = Some i -> i < length (sockets w)
}.

(** ** A concrete session, for the examples

    A clock that advances one millisecond per reading, and the world after the
    user has submitted [https://example.com] on the landing form and the
    socket has opened. *)
Definition exampleClock (n : nat) : Z := 1718000000000 + Z.of_nat n.

Definition openingActions : list Action :=
  [InputChange "https://example.com"; InitialSubmit; WsOpen 0].

Definition openSession : World :=
  match run exampleClock initialWorld openingActions with
  | Some w => w
  | None => initialWorld
  end.

(** The role and text of a turn, without its identifier. *)
Definition turn (m : Message.t) : Message.Role * string :=
  (Message.role m, Message.content m).

(** The world of [openSession] after the user has typed three spaces into the
    chat form. *)
Definition blankPrompt : World := update (setInput "   ") openSession.

(** The world of [openSession] after the user has typed a request into the
    chat form. *)
Definition typedPrompt : World := update (setInput "make the header blue") openSession.

(** The render captured by the callbacks of the current socket. *)
Definition render_of (w : World) : State :=
  match current w with
  | Some ws => render ws
  | None => page w
  end.

(** A clock read twice within the same millisecond. *)
Definition sameMillisecond (n : nat) : Z := 1718000000000.

(** ** http(s) URLs in a text

    What the regular expression of [handleInitialSubmit] looks for, said
    without it: a URL is [http://] or [https://] followed by one or more
    characters none of which is whitespace. *)

Fixpoint noWhiteSpace (s : string) : bool :=
  match s with
  | String c s' => negb (JS.isWhiteSpace c) && noWhiteSpace s'
  | EmptyString => true
  end.

Definition isHttpUrl (u : string) : Prop :=
  exists scheme body,
    u = scheme +:+ body
    /\ (scheme = "http://" \/ scheme = "https://")
    /\ body <> ""
    /\ noWhiteSpace body = true.

(** Where a URL stops: at the end of the text or before a whitespace. *)
Definition endsUrl (post : string) : Prop :=
  post = "" \/ exists c post', post = String c post' /\ JS.isWhiteSpace c = true.

(** [u] is the URL at the head of [s], taken up to where it stops. *)
Definition urlAtHead (s u : string) : Prop :=
  isHttpUrl u /\ exists post, s = u +:+ post /\ endsUrl post.

(** Some URL starts at the head of [s]. *)
Definition startsWithUrl (s : string) : Prop :=
  exists u post, s = u +:+ post /\ isHttpUrl u.

(** Some URL occurs in [s]. *)
Definition containsUrl (s : string) : Prop :=
  exists pre rest, s = pre +:+ rest /\ startsWithUrl rest.

(** [u] is the first URL of [s]: the one at the leftmost position a URL
    starts at. *)
Definition firstUrl (s u : string) : Prop :=
  exists pre rest,
    s = pre +:+ rest
    /\ urlAtHead rest u
    /\ forall pre' rest',
         s = pre' +:+ rest' -> String.length pre' < String.length pre ->
         ~ startsWithUrl rest'.

(** The landing form with a text that holds no URL, and with one that holds
    two. *)
Definition typedBrief : World :=
  update (setInput "a page for my bakery") initialWorld.

Definition typedUrls : World :=
  update (setInput "clone https://example.com/shop, not http://example.org") initialWorld.

(** ** Shape of a projected tree *)

(** A file node has no children; a folder node has children, no two of them
    with the same name, and each of them well formed. *)
#[warnings="-register-all"]
Inductive wf_node : TreeNode -> Prop :=
| wf_file nm : wf_node (Node nm file None)
| wf_folder nm ch :
    NoDup (map name ch) -> Forall wf_node ch -> wf_node (Node nm folder (Some ch)).

Definition wf_level (level : list TreeNode) : Prop :=
  NoDup (map name level) /\ Forall wf_node level.

(** The kind of the node a sequence of segments leads to, if there is one. *)
Definition kindAt (parts : list string) (level : list TreeNode) : option NodeType :=
  type <$> resolve parts level.

(** [parts] goes on below [pre]: [pre] is a proper prefix of it. *)
Definition continues (pre parts : list string) : Prop :=
  pre `prefix_of` parts /\ pre <> parts.

#[local] Instance continues_dec pre parts : Decision (continues pre parts).
Proof. unfold continues. apply _. Defined.

(** The segments of a path. *)
Definition segments (path : string) : list string := JS.split "/" path.

(** The store after the two creations in which the file [a] comes second and
    the path [a/b] has already made [a] a folder. *)
Definition folderThenFile : Files :=
  [("a/b", FileNode.mk "a/b" "B" None); ("a", FileNode.mk "a" "A" None)].

Definition folderThenFileTree : list TreeNode :=
  [Node "a" folder (Some [Node "b" file None])].

(** The tree of scenario C. *)
Definition scenarioCTree : list TreeNode :=
  [Node "a" folder
     (Some [Node "b" folder (Some [Node "c.txt" file None; Node "d.txt" file None])])].

(** The identifiers of the timeline of [w] are clock readings made so far,
    each reading used once. *)
Definition Stamped (Date_now : nat -> Z) (w : World) : Prop :=
  exists ks : list nat,
    map Message.id (messages (page w)) = map (fun k => JS.toString (Date_now k)) ks
    /\ NoDup ks
    /\ Forall (fun k => k < clock w) ks.


(** ** The explorer of [CodeEditorPanel]

    [expandedFolders] is a [Set<string>]: a list without repeats, in the
    order of insertion. *)

Definition Set_has (s : list string) (x : string) : bool :=
  existsb (String.eqb x) s.

Definition Set_add (s : list string) (x : string) : list string :=
  if Set_has s x then s else s ++ [x].

Definition Set_delete (s : list string) (x : string) : list string :=
  List.filter (fun y => negb (String.eqb y x)) s.

(** [toggleFolder(path)]: the new set [setExpandedFolders] receives. *)
Definition toggleFolder (expandedFolders : list string) (path : string) : list string :=
  if Set_has expandedFolders path
  then Set_delete expandedFolders path
  else Set_add expandedFolders path.

(** [path ? `${path}/${node.name}` : node.name] *)
Definition childPath (path nm : string) : string :=
  if JS.truthy path then path +:+ "/" +:+ nm else nm.

(** What [renderFileTree] puts on the screen, top to bottom: a row per
    rendered node, with the [currentPath] its click handler closes over. *)
Inductive Row :=
| FolderRow (currentPath : string) (isExpanded : bool)
| FileRow (currentPath : string) (selected : bool).

Definition rowPath (row : Row) : string :=
  match row with
  | FolderRow p _ => p
  | FileRow p _ => p
  end.

Definition rowKind (row : Row) : NodeType :=
  match row with
  | FolderRow _ _ => folder
  | FileRow _ _ => file
  end.

(** The body of the [nodes.map] of [renderFileTree], for one node: a folder
    row followed, when the folder is expanded and has children, by the rows
    of [renderFileTree(node.children, currentPath)]; a file row otherwise. *)
Fixpoint renderNode (expandedFolders : list string) (selectedFile : string)
    (path : string) (node : TreeNode) : list Row :=
  match node with
  | Node nm ty ch =>
      let currentPath := childPath path nm in
      let isExpanded := Set_has expandedFolders currentPath in
      match ty with
      | folder =>
          FolderRow currentPath isExpanded ::
          (if isExpanded then
             match ch with
             | Some nodes =>
                 (fix renderNodes (nodes : list TreeNode) : list Row :=
                    match nodes with
                    | n :: rest =>
                        renderNode expandedFolders selectedFile currentPath n
                        ++ renderNodes rest
                    | [] => []
                    end) nodes
             | None => []
             end
           else [])
      | file => [FileRow currentPath (String.eqb selectedFile currentPath)]
      end
  end.

(** [renderFileTree(nodes, path)] *)
Definition renderFileTree (expandedFolders : list string) (selectedFile : string)
    (nodes : list TreeNode) (path : string) : list Row :=
  flat_map (renderNode expandedFolders selectedFile path) nodes.

(** The [currentPath] reached by going down the names [parts] from the
    root, where [path] is empty. *)
Definition joinNames (parts : list string) : string :=
  fold_left childPath parts "".

(** What a row rendered for the subtree of a node stands for: the node
    itself, or a node further down whose folders above are all expanded. *)
Definition rowOfNode (expanded : list string) (n : TreeNode) (path : string)
    (row : Row) : Prop :=
  (rowPath row = childPath path (name n) /\ rowKind row = type n)
  \/ exists below q,
       children n = Some below
       /\ q <> []
       /\ rowPath row = fold_left childPath q (childPath path (name n))
       /\ kindAt q below = Some (rowKind row)
       /\ Set_has expanded (childPath path (name n)) = true
       /\ forall pre, pre <> [] -> continues pre q ->
            Set_has expanded (fold_left childPath pre (childPath path (name n))) = true.

Definition rowOfLevel (expanded : list string) (level : list TreeNode) (path : string)
    (row : Row) : Prop :=
  exists q,
    q <> []
    /\ rowPath row = fold_left childPath q path
    /\ kindAt q level = Some (rowKind row)
    /\ forall pre, pre <> [] -> continues pre q ->
         Set_has expanded (fold_left childPath pre path) = true.

(** A socket that is connecting or open. *)
Definition live (ws : WebSocket) : Prop :=
  readyState ws = CONNECTING \/ readyState ws = OPEN.

(** The frames a socket may have sent: the start frame for its url, then
    modification prompts, none of them blank. *)
Definition startThenPrompts (ws : WebSocket) : Prop :=
  exists prompts,
    sent ws = Start (url ws) :: map Modify prompts
    /\ Forall (fun prompt => JS.truthy (JS.trim prompt) = true) prompts.

Definition sentOk (ws : WebSocket) : Prop :=
  match readyState ws with
  | CONNECTING => sent ws = []
  | OPEN => startThenPrompts ws
  | CLOSING | CLOSED => sent ws = [] \/ startThenPrompts ws
  end.

(** The action is an event of a socket. *)
Definition socketEvent (a : Action) : bool :=
  match a with
  | WsOpen _ | WsMessage _ _ | WsError _ | WsClose _ => true
  | _ => false
  end.

(** The action is a file event on [key]. *)
Definition fileEventOn (key : string) (a : Action) : Prop :=
  exists i eventType data,
    a = WsMessage i (Parsed eventType data)
    /\ (eventType = "file_create" \/ eventType = "file_update")
    /\ path data = key.

(** A store of three files, as a build leaves it. *)
Definition exampleStore : Files :=
  [("src/app/page.tsx", FileNode.mk "src/app/page.tsx" "export {}" None);
   ("src/app/layout.tsx", FileNode.mk "src/app/layout.tsx" "<html/>" None);
   ("README.md", FileNode.mk "README.md" "# site" None)].

Definition exampleTree : list TreeNode :=
  [Node "src" folder
     (Some [Node "app" folder
              (Some [Node "page.tsx" file None; Node "layout.tsx" file None])]);
   Node "README.md" file None].

(** An open session in which a file has arrived. *)
Definition sessionWithFile : World :=
  match step exampleClock openSession (WsMessage 0 (file_create "src/app.tsx" "export {}")) with
  | Some w => w
  | None => openSession
  end.

(** * Properties *)

(** ** Auxiliary facts *)

Lemma ReadyState_eqb_eq a b : ReadyState_eqb a b = true <-> a = b.
Proof. destruct a, b; simpl; split; congruence. Qed.

Lemma truthy_empty s : JS.truthy s = false <-> s = "".
Proof.
  unfold JS.truthy. destruct s; simpl; split; congruence.
Qed.

Lemma truthy_true s : JS.truthy s = true <-> s <> "".
Proof. unfold JS.truthy. destruct s; simpl; split; congruence. Qed.

Lemma lookup_alter_Some {A} (f : A -> A) (l : list A) i j y :
  alter f i l !! j = Some y ->
  exists x, l !! j = Some x /\ ((i <> j /\ y = x) \/ (i = j /\ y = f x)).
Proof.
  destruct (decide (i = j)) as [->|Hne].
  - rewrite list_lookup_alter_eq. destruct (l !! j) as [x|] eqn:E; simpl; [|done].
    intros [= <-]. eauto.
  - rewrite list_lookup_alter_ne by done. eauto.
Qed.

Lemma Map_get_set_eq m key value : Map_get (Map_set m key value) key = Some value.
Proof.
  induction m as [|[k v] m IH]; simpl.
  - by rewrite String.eqb_refl.
  - destruct (String.eqb k key) eqn:E; simpl; rewrite E; done.
Qed.

Lemma Map_get_set_ne m key key' value :
  key <> key' -> Map_get (Map_set m key value) key' = Map_get m key'.
Proof.
  intros Hne. induction m as [|[k v] m IH]; simpl.
  - destruct (String.eqb key key') eqn:E; [|done].
    apply String.eqb_eq in E. done.
  - destruct (String.eqb k key) eqn:E; simpl.
    + apply String.eqb_eq in E. subst k.
      destruct (String.eqb key key') eqn:E'; [|done].
      apply String.eqb_eq in E'. done.
    + by rewrite IH.
Qed.

(** The flush block does nothing when the render it reads has no streamed
    text. *)
Lemma flushAiResponse_stale Date_now r w :
  aiResponse r = "" -> flushAiResponse Date_now r w = w.
Proof. intros H. unfold flushAiResponse. by rewrite H. Qed.

Lemma Inv_initial : Inv initialWorld.
Proof. split; simpl; intros; done. Qed.

(** [ws.onmessage] touches neither the sockets, nor the ref, nor
    [isBuilding]. *)
Lemma ws_onmessage_frame_of_page Date_now r frame w :
  let w' := ws_onmessage Date_now r frame w in
  sockets w' = sockets w /\ websocketRef w' = websocketRef w
  /\ isBuilding (page w') = isBuilding (page w).
Proof.
  destruct frame as [|eventType data]; simpl; [done|].
  unfold flushAiResponse.
  repeat case_match; simpl; done.
Qed.

(** [handleInitialSubmit] adds one socket, which captures the render the form
    was submitted in, and points the ref to it. *)
Lemma handleInitialSubmit_socket Date_now r w :
  let w' := handleInitialSubmit Date_now r w in
  exists target,
    sockets w' = sockets w ++ [mkWebSocket CONNECTING target r []]
    /\ websocketRef w' = Some (length (sockets w))
    /\ isBuilding (page w') = true.
Proof.
  unfold handleInitialSubmit.
  destruct (JS.match_urlRegex (input r)) as [foundUrl|] eqn:Hm.
  - exists foundUrl. destruct (JS.truthy (JS.trim (input r))); simpl; done.
  - exists defaultUrl. destruct (JS.truthy (JS.trim (input r))); simpl; done.
Qed.

Lemma step_preserves_Inv Date_now w a w' :
  Inv w -> step Date_now w a = Some w' -> Inv w'.
Proof.
  intros HI Hstep. pose proof HI as [Hrender Hlanding Hstale Href].
  destruct a as [value| | | |path|i|i frame|i|i]; simpl in Hstep.
  - (* typing *)
    injection Hstep as <-. split; simpl; auto.
  - (* the landing form *)
    destruct (isBuilding (page w)) eqn:Hb; [done|]. injection Hstep as <-.
    destruct (Hlanding eq_refl) as (Hai & Hsel & Hnone).
    destruct (handleInitialSubmit_socket Date_now (page w) w)
      as (target & Hs & Hr & Hbuilding).
    split.
    + intros i ws. rewrite Hs. intros Hi.
      apply lookup_app_Some in Hi as [Hi|[_ Hi]]; [eauto|].
      destruct (i - length (sockets w)); simpl in Hi; [|done].
      injection Hi as <-. done.
    + rewrite Hbuilding. done.
    + intros i ws. rewrite Hs, Hr. intros Hi Hne.
      apply lookup_app_Some in Hi as [Hi|[Hge Hi]].
      * apply (Hstale i ws Hi). rewrite Hnone. done.
      * destruct (i - length (sockets w)) eqn:Hd; simpl in Hi; [|done].
        exfalso. apply Hne. f_equal. lia.
    + intros i. rewrite Hs, Hr. intros [= <-]. rewrite length_app. simpl. lia.
  - (* the chat form *)
    destruct (isBuilding (page w)) eqn:Hb; [|done]. injection Hstep as <-.
    unfold handleModificationSubmit.
    case_match; [exact HI|].
    destruct (websocketRef w) as [k|] eqn:Hk; [|exact HI].
    split; simpl; rewrite ?Hk, ?Hb.
    + intros i ws Hi. apply lookup_alter_Some in Hi as (x & Hx & [[_ ->]|[_ ->]]);
        simpl; eauto.
    + done.
    + intros i ws Hi Hne.
      apply lookup_alter_Some in Hi as (x & Hx & [[_ ->]|[_ ->]]); simpl; eauto.
    + intros i Hi. rewrite length_alter. auto.
  - (* the reset button *)
    destruct (isBuilding (page w)) eqn:Hb; [|done]. injection Hstep as <-.
    unfold handleReset.
    destruct (websocketRef w) as [k|] eqn:Hk; simpl.
    + split; simpl; try done.
      * intros i ws Hi.
        apply lookup_alter_Some in Hi as (x & Hx & [[_ ->]|[_ ->]]); [eauto|].
        unfold WebSocket_close. destruct (readyState x); simpl; eauto.
      * intros i ws Hi _.
        apply lookup_alter_Some in Hi as (x & Hx & [[Hne ->]|[_ ->]]).
        -- apply (Hstale i x Hx). congruence.
        -- unfold WebSocket_close. destruct (readyState x) eqn:Hx'; simpl; auto.
    + split; simpl; rewrite ?Hk; done.
  - (* picking a file *)
    destruct (isBuilding (page w)) eqn:Hb; [|done]. injection Hstep as <-.
    split; simpl; auto. rewrite Hb. done.
  - (* a socket opens *)
    destruct (sockets w !! i) as [ws|] eqn:Hi; [|done].
    destruct (ReadyState_eqb (readyState ws) CONNECTING) eqn:Hc; [|done].
    apply ReadyState_eqb_eq in Hc. injection Hstep as <-.
    assert (websocketRef w = Some i) as Hcur.
    { destruct (decide (websocketRef w = Some i)) as [|Hne]; [done|].
      destruct (Hstale i ws Hi Hne); congruence. }
    unfold ws_onopen, WebSocket_send, setReadyState. simpl.
    rewrite list_lookup_alter_eq, Hi. simpl.
    split; simpl.
    + intros j y Hj.
      apply lookup_alter_Some in Hj as (x & Hx & [[_ ->]|[_ ->]]);
        apply lookup_alter_Some in Hx as (x' & Hx' & [[_ ->]|[_ ->]]); simpl; eauto.
    + done.
    + intros j y Hj Hne.
      apply lookup_alter_Some in Hj as (x & Hx & [[Hji ->]|[Hji ->]]); [|congruence].
      apply lookup_alter_Some in Hx as (x' & Hx' & [[_ ->]|[Hji' ->]]); [eauto|done].
    + intros j Hj. rewrite !length_alter. auto.
  - (* a frame arrives *)
    destruct (sockets w !! i) as [ws|] eqn:Hi; [|done].
    destruct (ReadyState_eqb (readyState ws) OPEN) eqn:Hc; [|done].
    apply ReadyState_eqb_eq in Hc. injection Hstep as <-.
    destruct (ws_onmessage_frame_of_page Date_now (render ws) frame w) as (Hs & Hr & Hbld).
    split.
    + rewrite Hs. done.
    + rewrite Hbld. intros Hb. destruct (Hlanding Hb) as (_ & _ & Hnone).
      exfalso. destruct (Hstale i ws Hi); [rewrite Hnone; done| |]; congruence.
    + rewrite Hs, Hr. done.
    + rewrite Hs, Hr. done.
  - (* a socket reports an error *)
    destruct (sockets w !! i) as [ws|]; [|done].
    injection Hstep as <-. exact HI.
  - (* a socket closes *)
    destruct (sockets w !! i) as [ws|] eqn:Hi; [|done].
    destruct (ReadyState_eqb (readyState ws) CLOSED) eqn:Hc; [done|].
    injection Hstep as <-. unfold ws_onclose.
    destruct (Hrender i ws Hi) as [Hai _].
    rewrite flushAiResponse_stale by done.
    unfold setReadyState. split; simpl.
    + intros j y Hj.
      apply lookup_alter_Some in Hj as (x & Hx & [[_ ->]|[_ ->]]); simpl; eauto.
    + done.
    + intros j y Hj Hne.
      apply lookup_alter_Some in Hj as (x & Hx & [[_ ->]|[_ ->]]); simpl; eauto.
    + intros j Hj. rewrite length_alter. auto.
Qed.

Lemma run_preserves_Inv Date_now actions : forall w w',
  Inv w -> run Date_now w actions = Some w' -> Inv w'.
Proof.
  induction actions as [|a rest IH]; simpl; intros w w' HI Hrun.
  - injection Hrun as <-. done.
  - destruct (step Date_now w a) as [w1|] eqn:Hstep; [|done].
    eapply IH; [|done]. eapply step_preserves_Inv; done.
Qed.

(** Every reachable world satisfies the invariant. *)
Lemma reachable_Inv Date_now w : reachable Date_now w -> Inv w.
Proof.
  intros [actions Hrun]. eapply run_preserves_Inv; [apply Inv_initial|done].
Qed.

Lemma openSession_reachable : reachable exampleClock openSession.
Proof. exists openingActions. reflexivity. Qed.

(** ** What the socket callbacks do in a session

    The callbacks installed by [handleClone] read [aiResponse] and
    [selectedFile] of the render the landing form was submitted in.  In every
    reachable world both are empty there, whatever has streamed or been
    selected since. *)

(** Handling [log] appends the message and leaves the streamed text where it
    is. *)
Lemma log_in_session Date_now w i data w' :
  reachable Date_now w ->
  step Date_now w (WsMessage i (Parsed "log" data)) = Some w' ->
  aiResponse (page w') = aiResponse (page w)
  /\ messages (page w') =
       messages (page w)
       ++ [Message.mk (JS.toString (Date_now (clock w))) Message.assistant (message data)].
Proof.
  intros Hreach Hstep. apply reachable_Inv in Hreach as [Hrender _ _ _].
  simpl in Hstep. destruct (sockets w !! i) as [ws|] eqn:Hi; [|done].
  destruct (ReadyState_eqb (readyState ws) OPEN); [|done].
  injection Hstep as <-. destruct (Hrender i ws Hi) as [Hai _].
  rewrite flushAiResponse_stale by done. done.
Qed.

(** Closing a socket changes nothing on the page. *)
Lemma close_in_session Date_now w i w' :
  reachable Date_now w ->
  step Date_now w (WsClose i) = Some w' ->
  page w' = page w.
Proof.
  intros Hreach Hstep. apply reachable_Inv in Hreach as [Hrender _ _ _].
  simpl in Hstep. destruct (sockets w !! i) as [ws|] eqn:Hi; [|done].
  destruct (ReadyState_eqb (readyState ws) CLOSED); [done|].
  injection Hstep as <-. destruct (Hrender i ws Hi) as [Hai _].
  unfold ws_onclose. rewrite flushAiResponse_stale by done. done.
Qed.

(** Every file event selects its path. *)
Lemma file_event_in_session Date_now w i eventType data w' :
  reachable Date_now w ->
  eventType = "file_create" \/ eventType = "file_update" ->
  step Date_now w (WsMessage i (Parsed eventType data)) = Some w' ->
  selectedFile (page w') = path data.
Proof.
  intros Hreach Hkind Hstep. apply reachable_Inv in Hreach as [Hrender _ _ _].
  simpl in Hstep. destruct (sockets w !! i) as [ws|] eqn:Hi; [|done].
  destruct (ReadyState_eqb (readyState ws) OPEN); [|done].
  injection Hstep as <-. destruct (Hrender i ws Hi) as [_ Hsel].
  rewrite Hsel. destruct Hkind as [-> | ->]; done.
Qed.

(** Were the callback to read the current state, [log] would flush: this is
    [ws.onmessage] run against the render of the current state. *)
Lemma log_with_current_render Date_now w data :
  aiResponse (page w) <> "" ->
  let w' := ws_onmessage Date_now (page w) (Parsed "log" data) w in
  aiResponse (page w') = ""
  /\ map turn (messages (page w')) =
       map turn (messages (page w))
       ++ [(Message.assistant, aiResponse (page w)); (Message.assistant, message data)].
Proof.
  intros Hne. simpl. unfold flushAiResponse.
  destruct (JS.truthy (aiResponse (page w))) eqn:Ht.
  - simpl. split; [done|]. rewrite !map_app, <- app_assoc. done.
  - apply truthy_empty in Ht. done.
Qed.

(** Likewise [ws.onclose] would flush, *)
Lemma close_with_current_render Date_now w :
  aiResponse (page w) <> "" ->
  let w' := ws_onclose Date_now (page w) w in
  aiResponse (page w') = ""
  /\ map turn (messages (page w')) =
       map turn (messages (page w)) ++ [(Message.assistant, aiResponse (page w))].
Proof.
  intros Hne. unfold ws_onclose, flushAiResponse.
  destruct (JS.truthy (aiResponse (page w))) eqn:Ht.
  - simpl. split; [done|]. by rewrite map_app.
  - apply truthy_empty in Ht. done.
Qed.

(** and a file event would leave a selected file selected. *)
Lemma file_event_with_current_render Date_now w eventType data :
  selectedFile (page w) <> "" ->
  eventType = "file_create" \/ eventType = "file_update" ->
  selectedFile (page (ws_onmessage Date_now (page w) (Parsed eventType data) w))
  = selectedFile (page w).
Proof.
  intros Hne Hkind. apply truthy_true in Hne.
  destruct Hkind as [-> | ->]; simpl; rewrite Hne; done.
Qed.

(** ** C1 *)

(** C1 (the code departs from the claim).  The claim: handling [log] first
    flushes the streamed text into the timeline, so that after the tokens
    [Hel], [lo] and the log [Done] the timeline ends with [Hello], [Done].
    On the code: in the session started by submitting [https://example.com],
    after these three frames the timeline holds the user's turn and [Done]
    only, and [Hello] is still the pending stream text. *)
Theorem C1_log_leaves_stream_pending Date_now :
  exists w,
    run Date_now initialWorld
      (openingActions ++
       [WsMessage 0 (ai_token "Hel"); WsMessage 0 (ai_token "lo"); WsMessage 0 (log "Done")])
    = Some w
    /\ map turn (messages (page w)) =
         [(Message.user, "https://example.com"); (Message.assistant, "Done")]
    /\ aiResponse (page w) = "Hello".
Proof. eexists. split; [reflexivity|]. split; reflexivity. Qed.

(** ** C3 *)

(** C3 (the code departs from the claim).  The claim: the focused path is
    the path of the first file event and later file events never change it.
    On the code: after [file_create] of [a.txt] and then of [b.txt] the
    selected file is [b.txt]. *)
Theorem C3_later_file_event_takes_focus Date_now :
  exists w1 w2,
    run Date_now initialWorld (openingActions ++ [WsMessage 0 (file_create "a.txt" "A")])
      = Some w1
    /\ selectedFile (page w1) = "a.txt"
    /\ step Date_now w1 (WsMessage 0 (file_create "b.txt" "B")) = Some w2
    /\ selectedFile (page w2) = "b.txt".
Proof. eexists _, _. repeat split; reflexivity. Qed.

(** ** C4 *)

(** C4 (the code departs from the claim).  The claim: when the connection
    closes while stream text is pending, the text becomes one assistant turn
    and the buffer is cleared.  On the code: after the token [Hel] and the
    close of the socket, the timeline still holds the user's turn only and
    [Hel] is still pending. *)
Theorem C4_close_leaves_stream_pending Date_now :
  exists w,
    run Date_now initialWorld (openingActions ++ [WsMessage 0 (ai_token "Hel"); WsClose 0])
      = Some w
    /\ map turn (messages (page w)) = [(Message.user, "https://example.com")]
    /\ aiResponse (page w) = "Hel"
    /\ readyState <$> sockets w !! 0 = Some CLOSED.
Proof. eexists. repeat split; reflexivity. Qed.

(** ** C2 *)

(** C2, the claim as stated fails: after [file_create] of [index.html] with
    content [v1] and a [file_update] of it that carries no [old_content], the
    record's [oldContent] is unset, not [v1]. *)
Lemma C2_update_without_old_content_forgets :
  let w1 := ws_onmessage exampleClock (render_of openSession)
              (file_create "index.html" "v1") openSession in
  let w2 := ws_onmessage exampleClock (render_of openSession)
              (file_update "index.html" "v2" None) w1 in
  Map_get (files (page w1)) "index.html" = Some (FileNode.mk "index.html" "v1" None)
  /\ Map_get (files (page w2)) "index.html" = Some (FileNode.mk "index.html" "v2" None)
  /\ FileNode.oldContent <$> Map_get (files (page w2)) "index.html" <> Some (Some "v1").
Proof. repeat split; try reflexivity. discriminate. Qed.

(** C2 (amended).  After a [file_update] on a path the record of the path
    has the update's content, and its [oldContent] is the update's
    [old_content]: the explicit value when there is one, unset when there is
    none, whatever the store held for the path before.  It is a [file_create]
    that records the content the path had immediately before, if any. *)
Theorem C2_file_events_record_history Date_now r w P C :
  (forall old,
     Map_get (files (page (ws_onmessage Date_now r (file_update P C old) w))) P
     = Some (FileNode.mk P C old))
  /\ Map_get (files (page (ws_onmessage Date_now r (file_create P C) w))) P
     = Some (FileNode.mk P C (FileNode.content <$> Map_get (files (page w)) P)).
Proof.
  split; [intros old|]; simpl; case_match; simpl; apply Map_get_set_eq.
Qed.

(** ** C5 *)

(** C5.  A frame that does not parse, or whose event name is none of the five
    the page knows, is handled without any change to the world: timeline,
    files, stream text, flags, sockets and ref stay as they are, and the
    socket keeps delivering. *)
Theorem C5_undecodable_frame_dropped Date_now w i ws frame :
  sockets w !! i = Some ws ->
  readyState ws = OPEN ->
  (frame = Unparsable
   \/ exists eventType data, frame = Parsed eventType data /\ recognized eventType = false) ->
  step Date_now w (WsMessage i frame) = Some w
  /\ forall r, ws_onmessage Date_now r frame w = w.
Proof.
  intros Hi Hopen Hframe.
  assert (forall r, ws_onmessage Date_now r frame w = w) as Hsame.
  { intros r. destruct Hframe as [->|(eventType & data & -> & Hrec)]; [done|].
    unfold recognized in Hrec.
    repeat (apply orb_false_elim in Hrec as [Hrec ?]).
    simpl. repeat match goal with H : String.eqb _ _ = false |- _ => rewrite H; clear H end.
    done. }
  split; [|done]. simpl. rewrite Hi, Hopen. simpl. by rewrite Hsame.
Qed.

Lemma C5_undecodable_frame_dropped_witness :
  step exampleClock openSession (WsMessage 0 (Parsed "heartbeat" noData)) = Some openSession
  /\ step exampleClock openSession (WsMessage 0 Unparsable) = Some openSession.
Proof.
  split.
  - apply (C5_undecodable_frame_dropped exampleClock openSession 0
             (mkWebSocket OPEN "https://example.com" (render_of openSession)
                [Start "https://example.com"])
             (Parsed "heartbeat" noData)).
    + reflexivity.
    + reflexivity.
    + right. exists "heartbeat", noData. split; reflexivity.
  - apply (C5_undecodable_frame_dropped exampleClock openSession 0
             (mkWebSocket OPEN "https://example.com" (render_of openSession)
                [Start "https://example.com"])
             Unparsable).
    + reflexivity.
    + reflexivity.
    + left. reflexivity.
Defined.

(** ** C6 *)

(** C6, the claim as stated fails: with the connection open, submitting a
    prompt of three spaces sends nothing. *)
Lemma C6_blank_prompt_not_sent :
  (exists ws, current blankPrompt = Some ws /\ readyState ws = OPEN)
  /\ handleModificationSubmit exampleClock (page blankPrompt) blankPrompt = blankPrompt
  /\ (sent <$> current blankPrompt) = Some [Start "https://example.com"].
Proof.
  split; [|split; reflexivity].
  eexists. split; reflexivity.
Qed.

(** C6 (amended).  A modification submission sends
    [{type: "modification", prompt}] if and only if its text is not blank and
    the current socket exists and is [OPEN], whatever [isBuilding] and
    [isLive] are: then the frame is appended to what was sent on that socket,
    the text becomes a user turn and the input is cleared.  In every other
    case the submission leaves the world as it is. *)
Theorem C6_modification_guard Date_now w :
  let prompt := input (page w) in
  let w' := handleModificationSubmit Date_now (page w) w in
  (forall i ws,
     JS.truthy (JS.trim prompt) = true ->
     websocketRef w = Some i -> sockets w !! i = Some ws -> readyState ws = OPEN ->
     sockets w' !! i
       = Some (mkWebSocket OPEN (url ws) (render ws) (sent ws ++ [Modify prompt]))
     /\ (forall j, j <> i -> sockets w' !! j = sockets w !! j)
     /\ messages (page w') =
          messages (page w)
          ++ [Message.mk (JS.toString (Date_now (clock w))) Message.user prompt]
     /\ input (page w') = ""
     /\ sessionState (page w') = sessionState (page w))
  /\ (JS.truthy (JS.trim prompt) = false
      \/ current w = None
      \/ (exists ws, current w = Some ws /\ readyState ws <> OPEN) ->
      w' = w).
Proof.
  intros prompt w'. subst prompt w'. unfold handleModificationSubmit, current. split.
  - intros i ws Hprompt Hi Hws Hopen. rewrite Hprompt, Hi, Hws, Hopen. simpl.
    rewrite list_lookup_alter_eq, Hws. simpl. rewrite Hopen.
    repeat split.
    intros j Hne. by rewrite list_lookup_alter_ne.
  - intros [Hblank|[Hnone|(ws & Hws & Hclosed)]].
    + by rewrite Hblank.
    + destruct (websocketRef w) as [i|]; rewrite ?Hnone, ?orb_true_r; done.
    + destruct (websocketRef w) as [i|]; [|by rewrite orb_true_r].
      rewrite Hws. destruct (readyState ws); try done; by rewrite orb_true_r.
Qed.

Lemma C6_modification_guard_witness :
  sockets (handleModificationSubmit exampleClock (page typedPrompt) typedPrompt) !! 0
    = Some (mkWebSocket OPEN "https://example.com" (render_of openSession)
              [Start "https://example.com"; Modify "make the header blue"])
  /\ handleModificationSubmit exampleClock (page blankPrompt) blankPrompt = blankPrompt.
Proof.
  split.
  - destruct (proj1 (C6_modification_guard exampleClock typedPrompt) 0
                (mkWebSocket OPEN "https://example.com" (render_of openSession)
                   [Start "https://example.com"]))
      as [Hsock _]; [reflexivity..|].
    exact Hsock.
  - apply (proj2 (C6_modification_guard exampleClock blankPrompt)).
    left. reflexivity.
Defined.

(** ** C9 *)

(** The timeline is only ever appended to, or emptied by the reset: no step
    reorders, rewrites or removes single turns. *)
Lemma step_appends_to_timeline Date_now w a w' :
  step Date_now w a = Some w' ->
  a <> Reset ->
  exists new, messages (page w') = messages (page w) ++ new.
Proof.
  intros Hstep Hne.
  destruct a as [value| | | |path|i|i frame|i|i]; simpl in Hstep;
    try done; repeat case_match; try done; injection Hstep as <-;
    try (exists []; simpl; by rewrite app_nil_r).
  - unfold handleInitialSubmit. repeat case_match; simpl;
      rewrite <- ?app_assoc; eexists; try reflexivity.
    by rewrite app_nil_r.
  - unfold handleModificationSubmit. repeat case_match; simpl;
      eexists; try reflexivity; by rewrite app_nil_r.
  - unfold ws_onopen. case_match; simpl; exists []; by rewrite app_nil_r.
  - unfold ws_onmessage, flushAiResponse. repeat case_match; simpl;
      rewrite <- ?app_assoc; eexists; try reflexivity; by rewrite app_nil_r.
  - unfold ws_onclose, flushAiResponse. repeat case_match; simpl;
      eexists; try reflexivity; by rewrite app_nil_r.
Qed.

(** Identifiers and the clock. *)

Lemma toString_inj a b : JS.toString a = JS.toString b -> a = b.
Proof.
  unfold JS.toString. intros H.
  assert (forall z, Z.to_int z <> Decimal.Pos Decimal.Nil
                    /\ Z.to_int z <> Decimal.Neg Decimal.Nil) as Hnonnil.
  { intros z. split; intros Hz; pose proof (f_equal Z.of_int Hz) as Hz';
      rewrite DecimalZ.of_to in Hz'; simpl in Hz'; subst z; discriminate Hz. }
  apply DecimalZ.to_int_inj.
  destruct (Hnonnil a) as [Ha1 Ha2], (Hnonnil b) as [Hb1 Hb2].
  pose proof (NilZero.isi _ Ha1 Ha2) as Hia.
  pose proof (NilZero.isi _ Hb1 Hb2) as Hib.
  rewrite H in Hia. congruence.
Qed.

Section Stamps.

Variable Date_now : nat -> Z.

Lemma Stamped_same w w' :
  messages (page w') = messages (page w) -> clock w' = clock w ->
  Stamped Date_now w -> Stamped Date_now w'.
Proof. intros Hm Hc (ks & Hids & Hnodup & Hlt). exists ks. by rewrite Hm, Hc. Qed.

Lemma Stamped_empty w : messages (page w) = [] -> Stamped Date_now w.
Proof.
  intros Hm. exists []. rewrite Hm. split; [done|]. split; [apply NoDup_nil_2|done].
Qed.

Lemma Stamped_pushMessage role content w :
  Stamped Date_now w -> Stamped Date_now (pushMessage Date_now role content w).
Proof.
  intros (ks & Hids & Hnodup & Hlt). exists (ks ++ [clock w]). simpl.
  rewrite !map_app, Hids. split; [done|]. split.
  - apply NoDup_app. split; [done|]. split; [|apply NoDup_singleton].
    intros k Hk Hk'. apply list_elem_of_singleton in Hk' as ->.
    rewrite Forall_forall in Hlt. specialize (Hlt _ Hk). lia.
  - apply Forall_app. split.
    + eapply Forall_impl; [done|]. simpl. intros k Hk. lia.
    + constructor; [lia|done].
Qed.

Lemma Stamped_flush r w :
  Stamped Date_now w -> Stamped Date_now (flushAiResponse Date_now r w).
Proof.
  intros H. unfold flushAiResponse. case_match; [|done].
  eapply Stamped_same; [..|apply Stamped_pushMessage, H]; done.
Qed.

(** Every step keeps the timeline stamped. *)
Lemma step_Stamped w a w' :
  step Date_now w a = Some w' -> Stamped Date_now w -> Stamped Date_now w'.
Proof.
  intros Hstep H.
  destruct a as [value| | | |path|i|i frame|i|i]; simpl in Hstep;
    repeat case_match; try done; injection Hstep as <-;
    try (eapply Stamped_same; [..|exact H]; done).
  - unfold handleInitialSubmit. repeat case_match;
      (eapply Stamped_same; [reflexivity|reflexivity|]);
      repeat first
        [ exact H
        | apply Stamped_pushMessage
        | (eapply Stamped_same; [reflexivity|reflexivity|]) ].
  - unfold handleModificationSubmit. repeat case_match; try done;
      (eapply Stamped_same; [..|apply Stamped_pushMessage, H]; done).
  - by apply Stamped_empty.
  - unfold ws_onopen. case_match; (eapply Stamped_same; [..|exact H]; done).
  - unfold ws_onmessage. repeat case_match; try done;
      try (eapply Stamped_same; [..|exact H]; done).
    + by apply Stamped_pushMessage, Stamped_flush.
    + apply Stamped_flush. eapply Stamped_same; [..|exact H]; done.
  - apply Stamped_flush. eapply Stamped_same; [..|exact H]; done.
Qed.

Lemma reachable_Stamped w : reachable Date_now w -> Stamped Date_now w.
Proof.
  intros [actions Hrun].
  assert (Stamped Date_now initialWorld) as H0 by by apply Stamped_empty.
  revert Hrun H0. generalize initialWorld.
  induction actions as [|a rest IH]; simpl; intros w0 Hrun H0.
  - by injection Hrun as <-.
  - destruct (step Date_now w0 a) as [w1|] eqn:Hstep; [|done].
    eapply IH; [done|]. by eapply step_Stamped.
Qed.

(** When no two readings of the clock agree, no two turns of a reachable
    timeline share an identifier. *)
Lemma ids_unique_on_strict_clock w :
  (forall m n, Date_now m = Date_now n -> m = n) ->
  reachable Date_now w ->
  NoDup (map Message.id (messages (page w))).
Proof.
  intros Hinj Hreach. destruct (reachable_Stamped w Hreach) as (ks & -> & Hnodup & _).
  apply NoDup_fmap_2; [|done]. intros m n Hmn. by apply Hinj, toString_inj.
Qed.

End Stamps.

(** C9 (the code departs from the claim).  The claim: no two turns of a
    reachable timeline share an identifier.  On the code: a turn's identifier
    is the millisecond clock reading at its creation, and the landing form,
    submitted with a text that holds no URL, creates the user's turn and the
    notice one after the other; read twice within one millisecond, the clock
    gives both the same identifier. *)
Theorem C9_same_millisecond_same_id :
  exists w,
    run sameMillisecond initialWorld [InputChange "a page for my bakery"; InitialSubmit]
      = Some w
    /\ map turn (messages (page w)) =
         [(Message.user, "a page for my bakery"); (Message.assistant, noUrlNotice)]
    /\ map Message.id (messages (page w)) = ["1718000000000"; "1718000000000"]
    /\ ~ NoDup (map Message.id (messages (page w))).
Proof.
  eexists. split; [reflexivity|]. split; [reflexivity|]. split; [reflexivity|].
  simpl. intros Hnodup. apply NoDup_cons in Hnodup as [Hnotin _].
  apply Hnotin. left.
Qed.

(** ** The regular expression of [handleInitialSubmit] *)

Lemma append_Empty (t : string) : "" +:+ t = t.
Proof. reflexivity. Qed.

Lemma append_String c (s t : string) : String c s +:+ t = String c (s +:+ t).
Proof. reflexivity. Qed.

(** Rewrites appends of string literals into conses. *)
Ltac push_append := rewrite ?append_String, ?append_Empty.
Ltac push_append_in H := rewrite ?append_String, ?append_Empty in H.

Lemma append_empty_r s : s +:+ "" = s.
Proof. induction s as [|c s IH]; push_append; [done|]. by rewrite IH. Qed.

Lemma append_assoc' (a b c : string) : (a +:+ b) +:+ c = a +:+ (b +:+ c).
Proof. induction a as [|x a IH]; push_append; [done|]. by rewrite IH. Qed.

Lemma stripPrefix_spec p : forall s rest,
  JS.stripPrefix p s = Some rest <-> s = p +:+ rest.
Proof.
  induction p as [|a p IH]; intros s rest; simpl; push_append.
  - split; [by intros [= ->]|by intros ->].
  - destruct s as [|b s]; [split; discriminate|].
    destruct (Ascii.eqb a b) eqn:E.
    + apply Ascii.eqb_eq in E as ->. rewrite IH. split; [by intros ->|].
      by intros [= ->].
    + split; [discriminate|]. intros [= -> _]. by rewrite Ascii.eqb_refl in E.
Qed.

Lemma takeNonSpace_noWhiteSpace s : noWhiteSpace (JS.takeNonSpace s) = true.
Proof.
  induction s as [|c s IH]; simpl; [done|].
  destruct (JS.isWhiteSpace c) eqn:E; simpl; [done|]. by rewrite E.
Qed.

Lemma takeNonSpace_split s :
  exists post, s = JS.takeNonSpace s +:+ post /\ endsUrl post.
Proof.
  induction s as [|c s (post & IH & Hend)]; simpl.
  - exists "". split; [done|by left].
  - destruct (JS.isWhiteSpace c) eqn:E; push_append.
    + exists (String c s). split; [done|]. right. eauto.
    + exists post. push_append. split; [by rewrite <- IH|done].
Qed.

Lemma takeNonSpace_app body post :
  noWhiteSpace body = true ->
  JS.takeNonSpace (body +:+ post) = body +:+ JS.takeNonSpace post.
Proof.
  induction body as [|c body IH]; push_append; simpl; [done|].
  intros H. apply andb_true_iff in H as [Hc Hbody].
  apply negb_true_iff in Hc. rewrite Hc, IH; done.
Qed.

Lemma takeNonSpace_at_end post : endsUrl post -> JS.takeNonSpace post = "".
Proof.
  intros [->|(c & post' & -> & Hc)]; simpl; [done|]. by rewrite Hc.
Qed.

Lemma schemeThenBody_sound scheme rest u :
  scheme = "http://" \/ scheme = "https://" ->
  JS.schemeThenBody scheme rest = Some u ->
  urlAtHead (scheme +:+ rest) u.
Proof.
  intros Hscheme. unfold JS.schemeThenBody.
  destruct (JS.truthy (JS.takeNonSpace rest)) eqn:Ht; [|done].
  intros [= <-]. apply truthy_true in Ht.
  destruct (takeNonSpace_split rest) as (post & Hrest & Hend).
  split.
  - exists scheme, (JS.takeNonSpace rest).
    repeat split; auto using takeNonSpace_noWhiteSpace.
  - exists post. split; [|done]. rewrite append_assoc'. by rewrite <- Hrest.
Qed.

Lemma schemeThenBody_complete scheme body post :
  body <> "" -> noWhiteSpace body = true -> endsUrl post ->
  JS.schemeThenBody scheme (body +:+ post) = Some (scheme +:+ body).
Proof.
  intros Hne Hbody Hend. unfold JS.schemeThenBody.
  rewrite takeNonSpace_app, takeNonSpace_at_end, append_empty_r by done.
  apply truthy_true in Hne. by rewrite Hne.
Qed.

Lemma schemeThenBody_some scheme body post :
  body <> "" -> noWhiteSpace body = true ->
  JS.schemeThenBody scheme (body +:+ post) <> None.
Proof.
  intros Hne Hbody. unfold JS.schemeThenBody.
  rewrite takeNonSpace_app by done.
  destruct body as [|c body]; [done|]. push_append. simpl. done.
Qed.

(** The expression tried at a position finds the URL that starts there. *)
Lemma urlRegex_here_sound s u : JS.urlRegex_here s = Some u -> urlAtHead s u.
Proof.
  unfold JS.urlRegex_here.
  destruct (JS.stripPrefix "https://" s) as [rest|] eqn:Hs.
  - apply stripPrefix_spec in Hs as ->. apply schemeThenBody_sound. by right.
  - destruct (JS.stripPrefix "http://" s) as [rest|] eqn:Hp; [|done].
    apply stripPrefix_spec in Hp as ->. apply schemeThenBody_sound. by left.
Qed.

Lemma urlRegex_here_complete s u : urlAtHead s u -> JS.urlRegex_here s = Some u.
Proof.
  intros [(scheme & body & -> & Hscheme & Hne & Hbody) (post & -> & Hend)].
  unfold JS.urlRegex_here. rewrite append_assoc'.
  destruct Hscheme as [-> | ->]; push_append; simpl; by apply schemeThenBody_complete.
Qed.

Lemma urlRegex_here_finds s : startsWithUrl s -> JS.urlRegex_here s <> None.
Proof.
  intros (u & post & -> & scheme & body & -> & Hscheme & Hne & Hbody).
  unfold JS.urlRegex_here. rewrite append_assoc'.
  destruct Hscheme as [-> | ->]; push_append; simpl; by apply schemeThenBody_some.
Qed.

Lemma urlAtHead_startsWithUrl s u : urlAtHead s u -> startsWithUrl s.
Proof. intros [Hu (post & -> & _)]. by exists u, post. Qed.

Lemma match_urlRegex_unfold s :
  JS.match_urlRegex s =
  match JS.urlRegex_here s with
  | Some u => Some u
  | None => match s with
            | String _ s' => JS.match_urlRegex s'
            | EmptyString => None
            end
  end.
Proof. destruct s; reflexivity. Qed.

(** No match: the text holds no URL. *)
Lemma match_urlRegex_None s : JS.match_urlRegex s = None -> ~ containsUrl s.
Proof.
  induction s as [|c s IH]; rewrite match_urlRegex_unfold;
    destruct (JS.urlRegex_here _) eqn:Hhere; try done;
    intros Hm (pre & rest & Hs & Hurl).
  - destruct pre; [|done]. push_append_in Hs. subst rest.
    by apply urlRegex_here_finds in Hurl.
  - destruct pre as [|c' pre]; push_append_in Hs.
    + subst rest. by apply urlRegex_here_finds in Hurl.
    + injection Hs as -> ->. apply (IH Hm). by exists pre, rest.
Qed.

(** A match is the first URL of the text. *)
Lemma match_urlRegex_Some s u : JS.match_urlRegex s = Some u -> firstUrl s u.
Proof.
  revert u. induction s as [|c s IH]; intros u; rewrite match_urlRegex_unfold;
    destruct (JS.urlRegex_here _) eqn:Hhere; try done.
  - intros [= ->]. exists "", (String c s). split; [reflexivity|].
    split; [by apply urlRegex_here_sound|]. intros pre' rest' _ Hlen. simpl in Hlen. lia.
  - intros Hm. destruct (IH u Hm) as (pre & rest & -> & Hat & Hmin).
    exists (String c pre), rest. split; [reflexivity|]. split; [done|].
    intros pre' rest' Hs Hlen Hurl. destruct pre' as [|c' pre']; push_append_in Hs.
    + subst rest'. by apply urlRegex_here_finds in Hurl.
    + injection Hs as -> Hs. simpl in Hlen. apply (Hmin pre' rest' Hs); [lia|done].
Qed.

(** The first URL of a text is what the match returns. *)
Lemma firstUrl_match_urlRegex s u : firstUrl s u -> JS.match_urlRegex s = Some u.
Proof.
  intros (pre & rest & -> & Hat & Hmin).
  induction pre as [|c pre IH]; push_append; rewrite match_urlRegex_unfold.
  - by rewrite (urlRegex_here_complete _ _ Hat).
  - destruct (JS.urlRegex_here (String c (pre +:+ rest))) as [u'|] eqn:Hhere.
    + exfalso. apply (Hmin "" (String c (pre +:+ rest))); [reflexivity|simpl; lia|].
      eapply urlAtHead_startsWithUrl, urlRegex_here_sound, Hhere.
    + apply IH. intros pre' rest' Hs Hlen.
      apply (Hmin (String c pre') rest'); [push_append; by rewrite <- Hs|simpl; lia].
Qed.

Lemma no_url_match_urlRegex s : ~ containsUrl s -> JS.match_urlRegex s = None.
Proof.
  intros Hno. destruct (JS.match_urlRegex s) as [u|] eqn:Hm; [|done].
  exfalso. apply Hno. apply match_urlRegex_Some in Hm as (pre & rest & -> & Hat & _).
  exists pre, rest. split; [done|]. by eapply urlAtHead_startsWithUrl.
Qed.

(** ** C10 *)

(** A connecting socket that opens sends its start frame first. *)
Lemma open_sends_start Date_now w i ws :
  sockets w !! i = Some ws -> readyState ws = CONNECTING -> sent ws = [] ->
  exists w'',
    step Date_now w (WsOpen i) = Some w''
    /\ sent <$> sockets w'' !! i = Some [Start (url ws)].
Proof.
  intros Hi Hc Hsent. simpl. rewrite Hi, Hc. simpl. eexists. split; [done|].
  unfold ws_onopen, setReadyState. simpl.
  rewrite list_lookup_alter_eq, Hi. simpl.
  rewrite !list_lookup_alter_eq, Hi. simpl. by rewrite Hsent.
Qed.

Lemma lookup_snoc {A} (l : list A) (x : A) : (l ++ [x]) !! length l = Some x.
Proof. by rewrite list_lookup_middle. Qed.

(** C10.  An initial submission whose text holds no http(s) URL opens the
    socket of the build for [defaultUrl], which is the url of the start
    frame sent when it opens, and appends the notice as an assistant turn,
    after the user's turn if the text is not blank.  When the text holds a
    URL, the socket is opened for the first one and the start frame carries
    it; no notice is appended. *)
Theorem C10_initial_submit_target Date_now w :
  let text := input (page w) in
  let w' := handleInitialSubmit Date_now (page w) w in
  let i := length (sockets w) in
  let userTurn := if JS.truthy (JS.trim text) then [(Message.user, text)] else [] in
  (~ containsUrl text ->
     websocketRef w' = Some i
     /\ sockets w' !! i = Some (mkWebSocket CONNECTING defaultUrl (page w) [])
     /\ (exists w'', step Date_now w' (WsOpen i) = Some w''
                     /\ sent <$> sockets w'' !! i = Some [Start defaultUrl])
     /\ map turn (messages (page w')) =
          map turn (messages (page w)) ++ userTurn ++ [(Message.assistant, noUrlNotice)])
  /\ (forall u, firstUrl text u ->
     websocketRef w' = Some i
     /\ sockets w' !! i = Some (mkWebSocket CONNECTING u (page w) [])
     /\ (exists w'', step Date_now w' (WsOpen i) = Some w''
                     /\ sent <$> sockets w'' !! i = Some [Start u])
     /\ map turn (messages (page w')) = map turn (messages (page w)) ++ userTurn).
Proof.
  intros text w' i userTurn. subst text w' i userTurn. split.
  - intros Hno. apply no_url_match_urlRegex in Hno.
    assert (sockets (handleInitialSubmit Date_now (page w) w) !! length (sockets w)
            = Some (mkWebSocket CONNECTING defaultUrl (page w) [])) as Hsock.
    { unfold handleInitialSubmit. rewrite Hno. case_match; simpl; apply lookup_snoc. }
    split; [unfold handleInitialSubmit; rewrite Hno; by case_match|].
    split; [done|].
    split; [by apply (open_sends_start Date_now _ _ _ Hsock)|].
    unfold handleInitialSubmit. rewrite Hno. case_match; simpl;
      rewrite !map_app, <- ?app_assoc; done.
  - intros u Hfirst. apply firstUrl_match_urlRegex in Hfirst.
    assert (sockets (handleInitialSubmit Date_now (page w) w) !! length (sockets w)
            = Some (mkWebSocket CONNECTING u (page w) [])) as Hsock.
    { unfold handleInitialSubmit. rewrite Hfirst. case_match; simpl; apply lookup_snoc. }
    split; [unfold handleInitialSubmit; rewrite Hfirst; by case_match|].
    split; [done|].
    split; [by apply (open_sends_start Date_now _ _ _ Hsock)|].
    unfold handleInitialSubmit. rewrite Hfirst. case_match; simpl;
      rewrite ?map_app, ?app_nil_r; done.
Qed.

Lemma C10_initial_submit_target_witness :
  sockets (handleInitialSubmit exampleClock (page typedBrief) typedBrief) !! 0
    = Some (mkWebSocket CONNECTING defaultUrl (page typedBrief) [])
  /\ sockets (handleInitialSubmit exampleClock (page typedUrls) typedUrls) !! 0
    = Some (mkWebSocket CONNECTING "https://example.com/shop," (page typedUrls) []).
Proof.
  split.
  - apply (proj1 (C10_initial_submit_target exampleClock typedBrief)).
    apply match_urlRegex_None. reflexivity.
  - apply (proj2 (C10_initial_submit_target exampleClock typedUrls)
             "https://example.com/shop,").
    apply match_urlRegex_Some. reflexivity.
Defined.

(** ** The file tree *)

Lemma find_Some part level n : find part level = Some n -> name n = part /\ n ∈ level.
Proof.
  induction level as [|x level IH]; simpl; [done|].
  destruct (String.eqb (name x) part) eqn:E.
  - intros [= ->]. apply String.eqb_eq in E. split; [done|]. by left.
  - intros H. destruct (IH H). split; [done|]. by right.
Qed.

Lemma find_None part level : find part level = None <-> part ∉ map name level.
Proof.
  induction level as [|x level IH]; simpl.
  - split; [intros _; apply not_elem_of_nil|done].
  - destruct (String.eqb (name x) part) eqn:E.
    + apply String.eqb_eq in E. split; [done|]. intros H. exfalso. apply H. subst. by left.
    + apply String.eqb_neq in E. rewrite IH, not_elem_of_cons.
      split; [intros H; split; congruence|by intros [_ H]].
Qed.

Lemma find_app part level n :
  find part (level ++ [n]) =
  match find part level with
  | Some x => Some x
  | None => if String.eqb (name n) part then Some n else None
  end.
Proof.
  induction level as [|x level IH]; simpl; [done|].
  destruct (String.eqb (name x) part); done.
Qed.

Lemma find_setChildren_eq part ch level n :
  find part level = Some n ->
  find part (setChildren part ch level) = Some (Node (name n) (type n) (Some ch)).
Proof.
  induction level as [|x level IH]; simpl; [done|].
  destruct (String.eqb (name x) part) eqn:E; simpl; rewrite E; [|done].
  by intros [= ->].
Qed.

Lemma find_setChildren_ne part other ch level :
  other <> part -> find other (setChildren part ch level) = find other level.
Proof.
  intros Hne. induction level as [|x level IH]; simpl; [done|].
  destruct (String.eqb (name x) part) eqn:E; simpl.
  - apply String.eqb_eq in E.
    destruct (String.eqb (name x) other) eqn:E'; [|done].
    apply String.eqb_eq in E'. congruence.
  - destruct (String.eqb (name x) other); done.
Qed.

Lemma names_setChildren part ch level :
  map name (setChildren part ch level) = map name level.
Proof.
  induction level as [|x level IH]; simpl; [done|].
  destruct (String.eqb (name x) part); simpl; [done|]. by rewrite IH.
Qed.

Lemma Forall_setChildren (P : TreeNode -> Prop) part ch level :
  Forall P level ->
  (forall n, n ∈ level -> name n = part -> P (Node (name n) (type n) (Some ch))) ->
  Forall P (setChildren part ch level).
Proof.
  induction level as [|x level IH]; simpl; [done|].
  intros Hall Hnew. apply Forall_cons in Hall as [Hx Hall].
  destruct (String.eqb (name x) part) eqn:E.
  - apply String.eqb_eq in E. constructor; [|done]. apply Hnew; [by left|done].
  - constructor; [done|]. apply IH; [done|]. intros n Hn. apply Hnew. by right.
Qed.

Lemma kindAt_cons part rest level :
  kindAt (part :: rest) level =
  match find part level with
  | Some n =>
      match rest with
      | [] => Some (type n)
      | _ => match children n with
             | Some below => kindAt rest below
             | None => None
             end
      end
  | None => None
  end.
Proof.
  unfold kindAt. simpl. destruct (find part level) as [n|]; [|done].
  destruct rest; [done|]. destruct (children n); done.
Qed.

Lemma continues_nil_r q : ~ continues q [].
Proof. intros [Hp Hne]. apply prefix_nil_inv in Hp. done. Qed.

Lemma continues_cons a q b l : continues (a :: q) (b :: l) <-> a = b /\ continues q l.
Proof.
  unfold continues. split.
  - intros [Hp Hne]. pose proof (prefix_cons_inv_1 _ _ _ _ Hp) as ->.
    apply prefix_cons_inv_2 in Hp. repeat split; [done|congruence].
  - intros (-> & Hp & Hne). split; [by apply prefix_cons|congruence].
Qed.

Lemma continues_nil_l l : continues [] l <-> l <> [].
Proof.
  unfold continues. split; [intros [_ H]; congruence|].
  intros H. split; [apply prefix_nil|congruence].
Qed.

Lemma continues_irrefl l : ~ continues l l.
Proof. by intros [_ H]. Qed.


Lemma wf_node_children n below :
  wf_node n -> children n = Some below -> type n = folder /\ wf_level below.
Proof.
  intros Hwf. destruct Hwf as [nm|nm ch Hnodup Hall]; simpl; [done|].
  intros [= <-]. done.
Qed.

Lemma kindAt_nil_level q : kindAt q [] = None.
Proof. destruct q; done. Qed.

(** [find] returns the only node of that name when names are not repeated. *)
Lemma find_unique part level existing n :
  NoDup (map name level) -> find part level = Some existing ->
  n ∈ level -> name n = part -> n = existing.
Proof.
  intros Hnodup Hfind Hn Hn'.
  induction level as [|x level IHl]; [by inversion Hn|].
  simpl in *. apply NoDup_cons in Hnodup as [Hx Hnodup].
  destruct (String.eqb (name x) part) eqn:E.
  - injection Hfind as <-. apply String.eqb_eq in E.
    apply elem_of_cons in Hn as [->|Hn]; [done|].
    exfalso. apply Hx. rewrite E, <- Hn'. by apply list_elem_of_fmap_2.
  - apply String.eqb_neq in E.
    apply elem_of_cons in Hn as [->|Hn]; [done|]. by apply IHl.
Qed.

Lemma wf_level_snoc level n :
  NoDup (map name level) -> Forall wf_node level -> name n ∉ map name level ->
  wf_node n -> wf_level (level ++ [n]).
Proof.
  intros Hnodup Hall Hfresh Hn. split.
  - rewrite map_app. apply NoDup_app. repeat split; [done| |apply NoDup_singleton].
    simpl. intros x Hx Hx'. apply list_elem_of_singleton in Hx' as ->. done.
  - apply Forall_app. split; [done|]. by constructor.
Qed.

(** What a path added to a level changes, when adding it does not fail: its
    proper prefixes are folders, the path itself keeps the node it had or
    gets a file node, and every other sequence of segments leads where it
    led before.  The level stays well formed. *)
Lemma addParts_kindAt parts : forall level level',
  wf_level level ->
  addParts parts level = Some level' ->
  wf_level level'
  /\ forall q, q <> [] ->
       (continues q parts -> kindAt q level' = Some folder)
       /\ (q = parts -> kindAt q level' = Some (default file (kindAt parts level)))
       /\ (~ continues q parts -> q <> parts -> kindAt q level' = kindAt q level).
Proof.
  induction parts as [|part rest IH]; intros level level' Hwf Hadd.
  { injection Hadd as <-. split; [done|]. intros q Hq.
    split; [|split]; try done. intros H. by apply continues_nil_r in H. }
  simpl in Hadd.
  destruct (find part level) as [existing|] eqn:Hfind.
  - (* a node of that name is there *)
    destruct (find_Some _ _ _ Hfind) as [Hname Hin].
    destruct rest as [|r rest'].
    + injection Hadd as <-. split; [done|]. intros [|q0 qrest] Hq; [done|].
      split; [|split].
      * intros Hc. apply continues_cons in Hc as [_ Hc]. by apply continues_nil_r in Hc.
      * intros [= -> ->]. rewrite kindAt_cons, Hfind. done.
      * done.
    + destruct (children existing) as [below|] eqn:Hbelow; [|done].
      destruct (addParts (r :: rest') below) as [ch|] eqn:Hrec; [|done].
      injection Hadd as <-.
      destruct Hwf as [Hnodup Hall].
      assert (wf_node existing) as Hex by (eapply Forall_forall; done).
      destruct (wf_node_children _ _ Hex Hbelow) as [Hfolder Hwfbelow].
      destruct (IH below ch Hwfbelow Hrec) as [Hwfch Hch].
      split.
      { split; [by rewrite names_setChildren|].
        apply Forall_setChildren; [done|]. intros n Hn Hn'.
        rewrite (find_unique _ _ _ _ Hnodup Hfind Hn Hn'), Hfolder.
        destruct Hwfch. by constructor. }
      intros [|q0 qrest] Hq; [done|].
      destruct (decide (q0 = part)) as [->|Hne].
      * rewrite !kindAt_cons, (find_setChildren_eq _ _ _ _ Hfind), Hfind. simpl.
        rewrite Hbelow.
        destruct qrest as [|q1 qrest].
        -- split; [|split].
           ++ intros _. by rewrite Hfolder.
           ++ done.
           ++ intros Hnc. exfalso. apply Hnc. apply continues_cons. split; [done|].
              by apply continues_nil_l.
        -- destruct (Hch (q1 :: qrest)) as (H1 & H2 & H3); [done|].
           split; [|split].
           ++ intros Hc. apply continues_cons in Hc as [_ Hc]. auto.
           ++ intros [= -> ->]. auto.
           ++ intros Hnc Hneq. apply H3; [|congruence].
              intros Hc. apply Hnc. by apply continues_cons.
      * split; [|split].
        -- intros Hc. apply continues_cons in Hc as [-> _]. done.
        -- intros [= -> _]. done.
        -- intros _ _. rewrite !kindAt_cons. by rewrite find_setChildren_ne.
  - (* no node of that name yet *)
    apply find_None in Hfind as Hfresh.
    destruct Hwf as [Hnodup Hall].
    destruct rest as [|r rest'].
    + injection Hadd as <-. split.
      { apply wf_level_snoc; [done..|constructor]. }
      intros [|q0 qrest] Hq; [done|].
      rewrite !kindAt_cons, find_app, Hfind. simpl.
      destruct (String.eqb part q0) eqn:E.
      * apply String.eqb_eq in E as <-. rewrite Hfind.
        destruct qrest as [|q1 qrest].
        -- split; [|split].
           ++ intros Hc. by apply continues_irrefl in Hc.
           ++ done.
           ++ done.
        -- split; [|split].
           ++ intros Hc. apply continues_cons in Hc as [_ Hc].
              by apply continues_nil_r in Hc.
           ++ done.
           ++ done.
      * apply String.eqb_neq in E. split; [|split].
        -- intros Hc. apply continues_cons in Hc as [-> _]. done.
        -- intros [= -> _]. done.
        -- intros _ _. destruct (find q0 level); done.
    + destruct (addParts (r :: rest') []) as [ch|] eqn:Hrec; [|done].
      injection Hadd as <-.
      assert (wf_level []) as Hwfnil by (split; [apply NoDup_nil_2|done]).
      destruct (IH [] ch Hwfnil Hrec) as [Hwfch Hch].
      split.
      { apply wf_level_snoc; [done..|]. destruct Hwfch. by constructor. }
      intros [|q0 qrest] Hq; [done|].
      rewrite !kindAt_cons, find_app, Hfind. simpl.
      destruct (String.eqb part q0) eqn:E.
      * apply String.eqb_eq in E as <-. rewrite Hfind.
        destruct qrest as [|q1 qrest].
        -- split; [|split].
           ++ done.
           ++ done.
           ++ intros Hnc. exfalso. apply Hnc. apply continues_cons. split; [done|].
              by apply continues_nil_l.
        -- destruct (Hch (q1 :: qrest)) as (H1 & H2 & H3); [done|].
           rewrite kindAt_nil_level in H2, H3.
           split; [|split].
           ++ intros Hc. apply continues_cons in Hc as [_ Hc]. auto.
           ++ intros [= -> ->]. auto.
           ++ intros Hnc Hneq. apply H3; [|congruence].
              intros Hc. apply Hnc. by apply continues_cons.
      * apply String.eqb_neq in E. split; [|split].
        -- intros Hc. apply continues_cons in Hc as [-> _]. done.
        -- intros [= -> _]. done.
        -- intros _ _. destruct (find q0 level); done.
Qed.

Lemma split_nonempty sep s : JS.split sep s <> [].
Proof.
  destruct s as [|c s]; simpl; [done|].
  destruct (Ascii.eqb c sep); [done|]. destruct (JS.split sep s); done.
Qed.

Lemma projectKeys_snoc keys p :
  projectKeys (keys ++ [p]) = addPath (projectKeys keys) p.
Proof. unfold projectKeys. by rewrite fold_left_app. Qed.

(** The kinds in a projected tree are decided by the paths alone: the folders
    are the proper prefixes of the paths, and every path leads to a node. *)
Lemma projectKeys_kindAt keys : forall t,
  projectKeys keys = Some t ->
  wf_level t
  /\ (forall q, q <> [] ->
        (kindAt q t = Some folder <-> exists p, p ∈ keys /\ continues q (segments p)))
  /\ (forall p, p ∈ keys -> kindAt (segments p) t <> None).
Proof.
  induction keys as [|p keys IH] using rev_ind; intros t' Hproj.
  - injection Hproj as <-. split; [split; [apply NoDup_nil_2|done]|]. split.
    + intros q Hq. rewrite kindAt_nil_level. split; [done|].
      intros (p & Hp & _). by apply not_elem_of_nil in Hp.
    + intros p Hp. by apply not_elem_of_nil in Hp.
  - rewrite projectKeys_snoc in Hproj.
    destruct (projectKeys keys) as [t|] eqn:Hkeys; [|done]. simpl in Hproj.
    destruct (IH t eq_refl) as (Hwf & Hfolders & Hpaths).
    destruct (addParts_kindAt _ _ _ Hwf Hproj) as [Hwf' Hkind].
    assert (segments p <> []) as Hsegs by apply split_nonempty.
    split; [done|]. split.
    + intros q Hq. destruct (Hkind q Hq) as (H1 & H2 & H3).
      destruct (decide (continues q (segments p))) as [Hc|Hnc].
      { rewrite (H1 Hc). split; [|done]. intros _. exists p. split; [|done].
        apply elem_of_app. right. by apply list_elem_of_singleton. }
      assert ((exists p0, p0 ∈ keys ++ [p] /\ continues q (segments p0))
              <-> exists p0, p0 ∈ keys /\ continues q (segments p0)) as ->.
      { split; intros (p0 & Hp0 & Hc0); exists p0; (split; [|done]).
        - apply elem_of_app in Hp0 as [Hp0|Hp0]; [done|].
          apply list_elem_of_singleton in Hp0 as ->. done.
        - apply elem_of_app. by left. }
      rewrite <- Hfolders by done.
      destruct (decide (q = segments p)) as [->|Hneq].
      * rewrite (H2 eq_refl). fold (segments p).
        destruct (kindAt (segments p) t) as [[|]|]; simpl; done.
      * by rewrite (H3 Hnc Hneq).
    + intros p0 Hp0. destruct (Hkind (segments p0)) as (H1 & H2 & H3);
        [apply split_nonempty|].
      destruct (decide (continues (segments p0) (segments p))) as [Hc|Hnc];
        [by rewrite (H1 Hc)|].
      destruct (decide (segments p0 = segments p)) as [Heq|Hneq];
        [by rewrite (H2 Heq)|].
      rewrite (H3 Hnc Hneq). apply Hpaths.
      apply elem_of_app in Hp0 as [Hp0|Hp0]; [done|].
      apply list_elem_of_singleton in Hp0 as ->. done.
Qed.

Lemma resolve_name q : forall level n, resolve q level = Some n -> last q = Some (name n).
Proof.
  induction q as [|part rest IH]; intros level n; simpl; [done|].
  destruct (find part level) as [x|] eqn:Hfind; [|done].
  destruct rest as [|r rest'].
  - intros [= <-]. apply find_Some in Hfind as [-> _]. done.
  - destruct (children x) as [below|]; [|done]. intros H. by apply IH in H.
Qed.

(** [files.set] keeps the keys in the order of their first insertion. *)
Lemma Map_keys_set m key value :
  Map_keys (Map_set m key value) =
  if decide (key ∈ Map_keys m) then Map_keys m else Map_keys m ++ [key].
Proof.
  unfold Map_keys. induction m as [|[k v] m IH]; simpl.
  - done.
  - destruct (String.eqb k key) eqn:E; simpl.
    + apply String.eqb_eq in E as ->. rewrite decide_True; [done|by left].
    + apply String.eqb_neq in E. rewrite IH.
      destruct (decide (key ∈ map fst m)) as [Hin|Hnin].
      * rewrite decide_True; [done|by right].
      * rewrite decide_False; [done|]. rewrite not_elem_of_cons. split; congruence.
Qed.

(** A path that goes on below a file of an earlier path makes the projection
    fail: the cursor moves to the [children] of the file node. *)
Example projectKeys_below_a_file : projectKeys ["a"; "a/b"] = None.
Proof. reflexivity. Qed.

(** ** C8 *)

(** C8, the claim as stated fails: with the keys [a/b] and [a], in this
    order, the final segment [a] of the second path is not made a file node;
    the folder the first path made for [a] is reused. *)
Lemma C8_final_segment_reuses_folder :
  fileTree folderThenFile = Some folderThenFileTree
  /\ resolve (segments "a") folderThenFileTree
       = Some (Node "a" folder (Some [Node "b" file None]))
  /\ kindAt (segments "a") folderThenFileTree <> Some file.
Proof. repeat split; try reflexivity. discriminate. Qed.

(** C8 (amended).  When the projection of the store's keys, taken in the
    order of their first insertion and split on [/], returns a tree: no two
    nodes of a level share a name, a file node has no children and a folder
    node has; every non-final segment of every key is a folder node; the
    final segment of a key leads to a node of that name, which is a file node
    exactly when no key of the store goes on below it, and otherwise is the
    folder already made for that name.  In particular, after [file_create]
    of [a/b/c.txt] and then of [a/b/d.txt] into an empty store, the tree is
    the folder [a] holding the folder [b] holding the files [c.txt] and
    [d.txt]. *)
Theorem C8_projected_tree :
  (forall (store : Files) t,
     fileTree store = Some t ->
     wf_level t
     /\ forall p, p ∈ Map_keys store ->
          (forall pre, pre <> [] -> continues pre (segments p) ->
             kindAt pre t = Some folder)
          /\ exists n,
               resolve (segments p) t = Some n
               /\ last (segments p) = Some (name n)
               /\ (type n = file <->
                   ~ exists q, q ∈ Map_keys store /\ continues (segments p) (segments q)))
  /\ (forall Date_now r w c d,
        files (page w) = [] ->
        let w1 := ws_onmessage Date_now r (file_create "a/b/c.txt" c) w in
        let w2 := ws_onmessage Date_now r (file_create "a/b/d.txt" d) w1 in
        Map_keys (files (page w2)) = ["a/b/c.txt"; "a/b/d.txt"]
        /\ fileTree (files (page w2)) = Some scenarioCTree).
Proof.
  split.
  - intros store t Hproj. unfold fileTree in Hproj.
    destruct (projectKeys_kindAt _ _ Hproj) as (Hwf & Hfolders & Hpaths).
    split; [done|]. intros p Hp. split.
    + intros pre Hpre Hc. apply Hfolders; [done|]. by exists p.
    + specialize (Hpaths p Hp). unfold kindAt in Hpaths.
      destruct (resolve (segments p) t) as [n|] eqn:Hres; [|done].
      exists n. split; [done|]. split; [by apply resolve_name in Hres|].
      specialize (Hfolders (segments p) (split_nonempty _ _)).
      unfold kindAt in Hfolders. rewrite Hres in Hfolders. simpl in Hfolders.
      rewrite <- Hfolders. destruct (type n); split; done.
  - intros Date_now r w c d Hempty. simpl.
    destruct (negb (JS.truthy (selectedFile r))); simpl; rewrite Hempty; done.
Qed.

Lemma C8_projected_tree_witness :
  wf_level folderThenFileTree
  /\ forall p, p ∈ Map_keys folderThenFile ->
       (forall pre, pre <> [] -> continues pre (segments p) ->
          kindAt pre folderThenFileTree = Some folder)
       /\ exists n,
            resolve (segments p) folderThenFileTree = Some n
            /\ last (segments p) = Some (name n)
            /\ (type n = file <->
                ~ exists q, q ∈ Map_keys folderThenFile
                            /\ continues (segments p) (segments q)).
Proof.
  apply (proj1 C8_projected_tree folderThenFile folderThenFileTree).
  reflexivity.
Defined.

(** * Further properties of the page *)

(** ** Streaming tokens *)

Lemma concat_cons t ts : String.concat "" (t :: ts) = t +:+ String.concat "" ts.
Proof. destruct ts; simpl; [by rewrite append_empty_r|done]. Qed.

Lemma update_setAiResponse_id w :
  update (setAiResponse (fun prev => prev +:+ "")) w = w.
Proof.
  destruct w as [[b f s l ai m inp] socks ref clk]. unfold update, setAiResponse. simpl.
  by rewrite append_empty_r.
Qed.

(** X1.  While a socket is open, a run of [ai_token] frames appends the
    tokens, in order, to the pending stream text and changes nothing else:
    the timeline, the files, the focus, the flags and the sockets are as
    before.  The text depends only on the concatenation, not on how the
    producer cut it into tokens. *)
Theorem X1_tokens_accumulate Date_now tokens : forall w i ws,
  sockets w !! i = Some ws ->
  readyState ws = OPEN ->
  run Date_now w (map (fun t => WsMessage i (ai_token t)) tokens)
  = Some (update (setAiResponse (fun prev => prev +:+ String.concat "" tokens)) w).
Proof.
  induction tokens as [|t ts IH]; intros w i ws Hi Hopen; simpl run.
  - by rewrite update_setAiResponse_id.
  - rewrite concat_cons. simpl step. rewrite Hi, Hopen. simpl.
    erewrite IH; [|exact Hi|exact Hopen].
    f_equal. unfold update, setAiResponse. simpl.
    by rewrite append_assoc'.
Qed.

Lemma X1_tokens_accumulate_witness :
  run exampleClock openSession
    (map (fun t => WsMessage 0 (ai_token t)) ["Hel"; "lo"; ", world"])
  = Some (update (setAiResponse (fun prev => prev +:+ "Hello, world")) openSession).
Proof.
  apply (X1_tokens_accumulate exampleClock ["Hel"; "lo"; ", world"] openSession 0
           (mkWebSocket OPEN "https://example.com" (render_of openSession)
              [Start "https://example.com"])).
  - reflexivity.
  - reflexivity.
Defined.

(** ** The two flags and the ref *)

(** A modification submission touches the timeline, the input and what was
    sent, nothing else. *)
Lemma handleModificationSubmit_keeps Date_now r w :
  let w' := handleModificationSubmit Date_now r w in
  isBuilding (page w') = isBuilding (page w)
  /\ isLive (page w') = isLive (page w)
  /\ websocketRef w' = websocketRef w
  /\ files (page w') = files (page w)
  /\ selectedFile (page w') = selectedFile (page w)
  /\ aiResponse (page w') = aiResponse (page w).
Proof. unfold handleModificationSubmit. repeat case_match; done. Qed.

(** In every reachable world the preview is live only while a build is
    shown, and a build is shown only while the ref holds a socket. *)
Lemma step_preserves_flags Date_now w a w' :
  Inv w ->
  (isLive (page w) = true -> isBuilding (page w) = true) ->
  (isBuilding (page w) = true -> websocketRef w <> None) ->
  step Date_now w a = Some w' ->
  (isLive (page w') = true -> isBuilding (page w') = true)
  /\ (isBuilding (page w') = true -> websocketRef w' <> None).
Proof.
  intros [Hrender Hlanding Hstale Href] Hlive Hbuilding Hstep.
  destruct a as [value| | | |path|i|i frame|i|i]; simpl in Hstep.
  - injection Hstep as <-. done.
  - destruct (isBuilding (page w)) eqn:Hb; [done|]. injection Hstep as <-.
    destruct (handleInitialSubmit_socket Date_now (page w) w)
      as (target & _ & Hr & Hbld).
    rewrite Hr, Hbld. done.
  - destruct (isBuilding (page w)) eqn:Hb; [|done]. injection Hstep as <-.
    destruct (handleModificationSubmit_keeps Date_now (page w) w)
      as (-> & -> & -> & _). rewrite Hb. done.
  - destruct (isBuilding (page w)) eqn:Hb; [|done]. injection Hstep as <-.
    unfold handleReset. case_match; simpl; done.
  - destruct (isBuilding (page w)) eqn:Hb; [|done]. injection Hstep as <-.
    simpl. rewrite Hb. done.
  - repeat case_match; try done. injection Hstep as <-.
    unfold ws_onopen. case_match; simpl; done.
  - destruct (sockets w !! i) as [ws|] eqn:Hi; [|done].
    destruct (ReadyState_eqb (readyState ws) OPEN) eqn:Hopen; [|done].
    apply ReadyState_eqb_eq in Hopen. injection Hstep as <-.
    destruct (ws_onmessage_frame_of_page Date_now (render ws) frame w) as (_ & Hr & Hb).
    rewrite Hr, Hb.
    assert (isBuilding (page w) = true) as Hbld.
    { destruct (isBuilding (page w)) eqn:E; [done|].
      destruct (Hlanding eq_refl) as (_ & _ & Hnone).
      destruct (Hstale i ws Hi); [rewrite Hnone; done| |]; congruence. }
    split; [done|]. intros _. by apply Hbuilding.
  - repeat case_match; try done. injection Hstep as <-. done.
  - destruct (sockets w !! i) as [ws|] eqn:Hi; [|done].
    destruct (ReadyState_eqb (readyState ws) CLOSED); [done|].
    injection Hstep as <-. unfold ws_onclose.
    destruct (Hrender i ws Hi) as [Hai _].
    rewrite flushAiResponse_stale by done. done.
Qed.

Lemma reachable_flags Date_now w :
  reachable Date_now w ->
  (isLive (page w) = true -> isBuilding (page w) = true)
  /\ (isBuilding (page w) = true <-> exists i, websocketRef w = Some i).
Proof.
  intros [actions Hrun].
  assert (Inv w
          /\ (isLive (page w) = true -> isBuilding (page w) = true)
          /\ (isBuilding (page w) = true -> websocketRef w <> None)) as (HI & H1 & H2).
  { revert Hrun.
    assert (Inv initialWorld
            /\ (isLive (page initialWorld) = true -> isBuilding (page initialWorld) = true)
            /\ (isBuilding (page initialWorld) = true -> websocketRef initialWorld <> None))
      as H0 by (split; [apply Inv_initial|done]).
    revert H0. generalize initialWorld.
    induction actions as [|a rest IH]; simpl; intros w0 H0 Hrun.
    - by injection Hrun as <-.
    - destruct (step Date_now w0 a) as [w1|] eqn:Hstep; [|done].
      destruct H0 as (HI0 & Ha & Hb).
      apply (IH w1); [|done]. split; [by eapply step_preserves_Inv|].
      by eapply step_preserves_flags. }
  split; [done|]. split.
  - intros Hb. destruct (websocketRef w) as [i|] eqn:Hr; [by exists i|].
    by apply H2 in Hb.
  - intros [i Hi]. destruct (isBuilding (page w)) eqn:Hb; [done|].
    destruct HI as [_ Hlanding _ _]. destruct (Hlanding Hb) as (_ & _ & Hnone). congruence.
Qed.

(** X2.  In every reachable world: the preview flag is set only while the
    build screen is shown, and the build screen is shown exactly when
    [websocketRef] holds a socket. *)
Theorem X2_flags_and_ref Date_now w :
  reachable Date_now w ->
  (isLive (page w) = true -> isBuilding (page w) = true)
  /\ (isBuilding (page w) = true <-> exists i, websocketRef w = Some i).
Proof. apply reachable_flags. Qed.

Lemma X2_flags_and_ref_witness :
  (isLive (page openSession) = true -> isBuilding (page openSession) = true)
  /\ (isBuilding (page openSession) = true <-> exists i, websocketRef openSession = Some i).
Proof.
  apply (X2_flags_and_ref exampleClock openSession).
  exists openingActions. reflexivity.
Defined.

(** ** The session state machine *)

Lemma handleInitialSubmit_keeps Date_now r w :
  let w' := handleInitialSubmit Date_now r w in
  isLive (page w') = isLive (page w)
  /\ files (page w') = files (page w)
  /\ selectedFile (page w') = selectedFile (page w)
  /\ aiResponse (page w') = aiResponse (page w).
Proof. unfold handleInitialSubmit. repeat case_match; done. Qed.

Lemma flushAiResponse_keeps Date_now r w :
  let w' := flushAiResponse Date_now r w in
  isBuilding (page w') = isBuilding (page w)
  /\ isLive (page w') = isLive (page w)
  /\ files (page w') = files (page w)
  /\ selectedFile (page w') = selectedFile (page w)
  /\ sockets w' = sockets w
  /\ websocketRef w' = websocketRef w.
Proof. unfold flushAiResponse. case_match; done. Qed.

Lemma ws_onopen_page i w : page (ws_onopen i w) = page w.
Proof. unfold ws_onopen. by case_match. Qed.

(** A frame changes [isLive] only by setting it, and only when it is a
    [status] frame that says [ready]. *)
Lemma ws_onmessage_isLive Date_now r frame w :
  let w' := ws_onmessage Date_now r frame w in
  isLive (page w') = isLive (page w)
  \/ (isLive (page w') = true
      /\ exists data, frame = Parsed "status" data /\ status data = "ready").
Proof.
  destruct frame as [|eventType data]; simpl; [by left|].
  destruct (String.eqb eventType "log"); [left; unfold flushAiResponse; by case_match|].
  destruct (String.eqb eventType "ai_token"); [by left|].
  destruct (String.eqb eventType "file_create" || String.eqb eventType "file_update");
    [left; by case_match|].
  destruct (String.eqb eventType "status") eqn:Es; simpl; [|by left].
  destruct (String.eqb (status data) "ready") eqn:Er; [|by left].
  apply String.eqb_eq in Es as ->. apply String.eqb_eq in Er.
  right. split; [unfold flushAiResponse; by case_match|]. by exists data.
Qed.

(** X3.  The session state changes along three edges only: the landing form
    takes [Idle] to [Building], a [status] frame saying [ready] takes
    [Building] to [Live], and the reset button leads to [Idle].  No other
    step of a reachable world changes it; in particular a closing socket or a
    socket error leaves a build where it is. *)
Theorem X3_session_transitions Date_now w a w' :
  reachable Date_now w ->
  step Date_now w a = Some w' ->
  sessionState (page w') = sessionState (page w)
  \/ (sessionState (page w) = Idle /\ sessionState (page w') = Building
      /\ a = InitialSubmit)
  \/ (sessionState (page w) = Building /\ sessionState (page w') = Live
      /\ exists i data, a = WsMessage i (Parsed "status" data) /\ status data = "ready")
  \/ (sessionState (page w') = Idle /\ a = Reset).
Proof.
  intros Hreach Hstep.
  destruct (reachable_flags Date_now w Hreach) as [Hlive _].
  unfold sessionState.
  destruct a as [value| | | |path|i|i frame|i|i]; simpl in Hstep.
  - injection Hstep as <-. by left.
  - destruct (isBuilding (page w)) eqn:Hb; [done|]. injection Hstep as <-.
    destruct (handleInitialSubmit_socket Date_now (page w) w) as (target & _ & _ & ->).
    destruct (handleInitialSubmit_keeps Date_now (page w) w) as (-> & _).
    destruct (isLive (page w)); [by specialize (Hlive eq_refl)|].
    right. by left.
  - destruct (isBuilding (page w)) eqn:Hb; [|done]. injection Hstep as <-.
    destruct (handleModificationSubmit_keeps Date_now (page w) w) as (-> & -> & _).
    rewrite Hb. by left.
  - destruct (isBuilding (page w)) eqn:Hb; [|done]. injection Hstep as <-.
    do 3 right. split; [|done]. unfold handleReset. by case_match.
  - destruct (isBuilding (page w)) eqn:Hb; [|done]. injection Hstep as <-.
    simpl. rewrite Hb. by left.
  - destruct (sockets w !! i) as [ws|]; [|done].
    destruct (ReadyState_eqb (readyState ws) CONNECTING); [|done].
    injection Hstep as <-. left. by rewrite ws_onopen_page.
  - destruct (sockets w !! i) as [ws|]; [|done].
    destruct (ReadyState_eqb (readyState ws) OPEN); [|done]. injection Hstep as <-.
    destruct (ws_onmessage_frame_of_page Date_now (render ws) frame w) as (_ & _ & ->).
    destruct (ws_onmessage_isLive Date_now (render ws) frame w)
      as [->|[-> (data & -> & Hready)]]; [by left|].
    destruct (isBuilding (page w)); [|by left].
    destruct (isLive (page w)); [by left|].
    do 2 right. left. repeat split. by exists i, data.
  - destruct (sockets w !! i) as [ws|]; [|done].
    injection Hstep as <-. by left.
  - destruct (sockets w !! i) as [ws|]; [|done].
    destruct (ReadyState_eqb (readyState ws) CLOSED); [done|]. injection Hstep as <-.
    unfold ws_onclose.
    destruct (flushAiResponse_keeps Date_now (render ws) (setReadyState CLOSED i w))
      as (-> & -> & _). by left.
Qed.

Lemma X3_session_transitions_witness :
  sessionState (page openSession) = Building
  /\ exists w', step exampleClock openSession (WsMessage 0 (status_frame "ready")) = Some w'
                /\ sessionState (page w') = Live.
Proof.
  split; [reflexivity|]. eexists. split; [reflexivity|].
  destruct (X3_session_transitions exampleClock openSession
              (WsMessage 0 (status_frame "ready")) _
              (ex_intro _ openingActions eq_refl) eq_refl)
    as [H|[(H & _)|[(_ & H & _)|(_ & H)]]]; [discriminate H|discriminate H|exact H|discriminate H].
Defined.

(** ** Sockets *)

(** X4.  In every reachable world a socket that is connecting or open is the
    one [websocketRef] points to, so at most one socket is: [handleReset]
    has closed the previous one before the landing form can open the next. *)
Theorem X4_one_live_socket Date_now w i ws :
  reachable Date_now w ->
  sockets w !! i = Some ws ->
  live ws ->
  websocketRef w = Some i
  /\ forall j ws', sockets w !! j = Some ws' -> live ws' -> j = i.
Proof.
  intros Hreach Hi Hlive. apply reachable_Inv in Hreach as [_ _ Hstale _].
  assert (forall j ws', sockets w !! j = Some ws' -> live ws' -> websocketRef w = Some j)
    as Hcur.
  { intros j ws' Hj [Hc|Ho]; destruct (decide (websocketRef w = Some j)) as [|Hne];
      try done; destruct (Hstale j ws' Hj Hne); congruence. }
  split; [by eapply Hcur|]. intros j ws' Hj Hlive'.
  pose proof (Hcur _ _ Hi Hlive). pose proof (Hcur _ _ Hj Hlive'). congruence.
Qed.

Lemma X4_one_live_socket_witness :
  websocketRef openSession = Some 0
  /\ forall j ws', sockets openSession !! j = Some ws' -> live ws' -> j = 0.
Proof.
  apply (X4_one_live_socket exampleClock openSession 0
           (mkWebSocket OPEN "https://example.com" (render_of openSession)
              [Start "https://example.com"])).
  - exists openingActions. reflexivity.
  - reflexivity.
  - right. reflexivity.
Defined.

Lemma step_preserves_sentOk Date_now w a w' :
  (forall i ws, sockets w !! i = Some ws -> sentOk ws) ->
  step Date_now w a = Some w' ->
  forall i ws, sockets w' !! i = Some ws -> sentOk ws.
Proof.
  intros Hok Hstep.
  destruct a as [value| | | |path|i|i frame|i|i]; simpl in Hstep.
  - injection Hstep as <-. done.
  - destruct (isBuilding (page w)); [done|]. injection Hstep as <-.
    destruct (handleInitialSubmit_socket Date_now (page w) w) as (target & -> & _).
    intros j ws Hj. apply lookup_app_Some in Hj as [Hj|[_ Hj]]; [eauto|].
    destruct (j - length (sockets w)); simpl in Hj; [|done].
    injection Hj as <-. done.
  - destruct (isBuilding (page w)); [|done]. injection Hstep as <-.
    unfold handleModificationSubmit.
    destruct (JS.truthy (JS.trim (input (page w)))) eqn:Hprompt; simpl; [|done].
    unfold current. destruct (websocketRef w) as [k|]; [|done].
    destruct (sockets w !! k) as [ws0|] eqn:Hk; simpl; [|done].
    destruct (ReadyState_eqb (readyState ws0) OPEN) eqn:Hopen; simpl; [|done].
    apply ReadyState_eqb_eq in Hopen.
    intros j ws Hj. apply lookup_alter_Some in Hj as (x & Hx & [[_ ->]|[<- ->]]); [eauto|].
    assert (x = ws0) as -> by congruence.
    specialize (Hok _ _ Hk). unfold sentOk in *. simpl. rewrite Hopen in *.
    destruct Hok as (prompts & Hsent & Hall). exists (prompts ++ [input (page w)]).
    simpl. rewrite Hsent, map_app. split; [done|].
    apply Forall_app. split; [done|]. by constructor.
  - destruct (isBuilding (page w)); [|done]. injection Hstep as <-.
    unfold handleReset. destruct (websocketRef w) as [k|]; simpl; [|done].
    intros j ws Hj. apply lookup_alter_Some in Hj as (x & Hx & [[_ ->]|[<- ->]]); [eauto|].
    specialize (Hok _ _ Hx). unfold sentOk, WebSocket_close in *.
    destruct (readyState x) eqn:Hrs; simpl; rewrite ?Hrs; auto.
  - destruct (isBuilding (page w)); [|done]. injection Hstep as <-. done.
  - destruct (sockets w !! i) as [ws0|] eqn:Hi; [|done].
    destruct (ReadyState_eqb (readyState ws0) CONNECTING) eqn:Hc; [|done].
    apply ReadyState_eqb_eq in Hc. injection Hstep as <-.
    unfold ws_onopen, WebSocket_send, setReadyState. simpl.
    rewrite list_lookup_alter_eq, Hi. simpl.
    intros j ws Hj.
    apply lookup_alter_Some in Hj as (x & Hx & [[Hne ->]|[<- ->]]).
    + apply lookup_alter_Some in Hx as (y & Hy & [[_ ->]|[Heq _]]); [eauto|done].
    + apply lookup_alter_Some in Hx as (y & Hy & [[Hne _]|[_ ->]]); [done|].
      assert (y = ws0) as -> by congruence.
      specialize (Hok _ _ Hi). unfold sentOk in *. rewrite Hc in Hok. simpl.
      exists []. rewrite Hok. done.
  - destruct (sockets w !! i) as [ws0|]; [|done].
    destruct (ReadyState_eqb (readyState ws0) OPEN); [|done]. injection Hstep as <-.
    destruct (ws_onmessage_frame_of_page Date_now (render ws0) frame w) as (-> & _). done.
  - repeat case_match; try done. injection Hstep as <-. done.
  - destruct (sockets w !! i) as [ws0|] eqn:Hi; [|done].
    destruct (ReadyState_eqb (readyState ws0) CLOSED); [done|]. injection Hstep as <-.
    unfold ws_onclose.
    destruct (flushAiResponse_keeps Date_now (render ws0) (setReadyState CLOSED i w))
      as (_ & _ & _ & _ & -> & _).
    unfold setReadyState. simpl.
    intros j ws Hj. apply lookup_alter_Some in Hj as (x & Hx & [[_ ->]|[<- ->]]); [eauto|].
    specialize (Hok _ _ Hx). unfold sentOk in *. simpl.
    destruct (readyState x); auto.
Qed.

(** X5.  In every reachable world, what a socket has sent follows the
    protocol: nothing while it is connecting; once open, the start frame
    with the url the build was started for, followed only by modification
    frames, none with a blank prompt; a closing or closed socket has sent
    either nothing (it never opened) or such a sequence. *)
Theorem X5_outbound_frames_follow_protocol Date_now w i ws :
  reachable Date_now w ->
  sockets w !! i = Some ws ->
  sentOk ws.
Proof.
  intros [actions Hrun]. revert i ws.
  assert (forall i ws, sockets initialWorld !! i = Some ws -> sentOk ws) as H0 by done.
  revert H0 Hrun. generalize initialWorld.
  induction actions as [|a rest IH]; simpl; intros w0 H0 Hrun.
  - by injection Hrun as <-.
  - destruct (step Date_now w0 a) as [w1|] eqn:Hstep; [|done].
    apply (IH w1); [|done]. by eapply step_preserves_sentOk.
Qed.

Lemma X5_outbound_frames_follow_protocol_witness :
  sentOk (mkWebSocket OPEN "https://example.com" (render_of openSession)
            [Start "https://example.com"]).
Proof.
  apply (X5_outbound_frames_follow_protocol exampleClock openSession 0).
  - exists openingActions. reflexivity.
  - reflexivity.
Defined.

(** ** Files and the editor *)

(** What a frame does to the store: nothing, or one [files.set]. *)
Lemma ws_onmessage_files Date_now r frame w :
  let w' := ws_onmessage Date_now r frame w in
  files (page w') = files (page w)
  \/ exists eventType data node,
       frame = Parsed eventType data
       /\ (eventType = "file_create" \/ eventType = "file_update")
       /\ files (page w') = Map_set (files (page w)) (path data) node
       /\ FileNode.content node = content data.
Proof.
  destruct frame as [|eventType data]; simpl; [by left|].
  destruct (String.eqb eventType "log"); [left; unfold flushAiResponse; by case_match|].
  destruct (String.eqb eventType "ai_token"); [by left|].
  destruct (String.eqb eventType "file_create") eqn:Ec;
    [|destruct (String.eqb eventType "file_update") eqn:Eu]; simpl.
  - apply String.eqb_eq in Ec. right. eexists eventType, data, _.
    split; [done|]. split; [by left|]. by case_match.
  - apply String.eqb_eq in Eu. right. eexists eventType, data, _.
    split; [done|]. split; [by right|]. by case_match.
  - left. case_match; [|done]. unfold flushAiResponse. by case_match.
Qed.

(** X6.  In a session, when a [file_create] or [file_update] frame arrives
    the editor shows the file of that frame: it becomes the selected file and
    [currentFileContent] is the content the frame carried. *)
Theorem X6_editor_shows_arrived_file Date_now w i eventType data w' :
  reachable Date_now w ->
  eventType = "file_create" \/ eventType = "file_update" ->
  step Date_now w (WsMessage i (Parsed eventType data)) = Some w' ->
  selectedFile (page w') = path data
  /\ currentFileContent (page w') = content data.
Proof.
  intros Hreach Hkind Hstep.
  pose proof (file_event_in_session _ _ _ _ _ _ Hreach Hkind Hstep) as Hsel.
  split; [done|]. unfold currentFileContent. rewrite Hsel.
  simpl in Hstep. destruct (sockets w !! i) as [ws|]; [|done].
  destruct (ReadyState_eqb (readyState ws) OPEN); [|done]. injection Hstep as <-.
  destruct Hkind as [-> | ->]; simpl;
    destruct (negb (JS.truthy (selectedFile (render ws)))); simpl;
    by rewrite Map_get_set_eq.
Qed.

Lemma X6_editor_shows_arrived_file_witness :
  selectedFile (page sessionWithFile) = "src/app.tsx"
  /\ currentFileContent (page sessionWithFile) = "export {}".
Proof.
  apply (X6_editor_shows_arrived_file exampleClock openSession 0 "file_create"
           (mkData "" "" "src/app.tsx" "export {}" None "") sessionWithFile).
  - exists openingActions. reflexivity.
  - left. reflexivity.
  - reflexivity.
Defined.

Lemma Map_get_set_other m key value other node :
  Map_get m other = Some node ->
  Map_get (Map_set m key value) other = Some node \/ key = other.
Proof.
  intros H. destruct (decide (key = other)) as [|Hne]; [by right|].
  left. by rewrite Map_get_set_ne.
Qed.

(** X7.  No step but the reset removes, renames or reorders a stored file:
    the keys of the store before the step are a prefix of the keys after it,
    and a record is kept as it was unless the step is a file event on its
    own path. *)
Theorem X7_store_only_grows Date_now w a w' :
  step Date_now w a = Some w' ->
  a <> Reset ->
  Map_keys (files (page w)) `prefix_of` Map_keys (files (page w'))
  /\ forall key node,
       Map_get (files (page w)) key = Some node ->
       Map_get (files (page w')) key = Some node \/ fileEventOn key a.
Proof.
  intros Hstep Hne.
  assert (files (page w') = files (page w)
          \/ exists i eventType data node,
               a = WsMessage i (Parsed eventType data)
               /\ (eventType = "file_create" \/ eventType = "file_update")
               /\ files (page w') = Map_set (files (page w)) (path data) node)
    as [->|(i & eventType & data & node & -> & Hkind & ->)].
  { destruct a as [value| | | |path|i|i frame|i|i]; simpl in Hstep; try done.
    - injection Hstep as <-. by left.
    - destruct (isBuilding (page w)); [done|]. injection Hstep as <-. left.
      by destruct (handleInitialSubmit_keeps Date_now (page w) w) as (_ & -> & _).
    - destruct (isBuilding (page w)); [|done]. injection Hstep as <-. left.
      by destruct (handleModificationSubmit_keeps Date_now (page w) w)
        as (_ & _ & _ & -> & _).
    - destruct (isBuilding (page w)); [|done]. injection Hstep as <-. by left.
    - destruct (sockets w !! i) as [ws|]; [|done].
      destruct (ReadyState_eqb (readyState ws) CONNECTING); [|done].
      injection Hstep as <-. left. by rewrite ws_onopen_page.
    - destruct (sockets w !! i) as [ws|]; [|done].
      destruct (ReadyState_eqb (readyState ws) OPEN); [|done]. injection Hstep as <-.
      destruct (ws_onmessage_files Date_now (render ws) frame w)
        as [->|(eventType & data & node & -> & Hkind & -> & _)]; [by left|].
      right. by exists i, eventType, data, node.
    - destruct (sockets w !! i) as [ws|]; [|done].
      injection Hstep as <-. by left.
    - destruct (sockets w !! i) as [ws|]; [|done].
      destruct (ReadyState_eqb (readyState ws) CLOSED); [done|].
      injection Hstep as <-. left. unfold ws_onclose.
      by destruct (flushAiResponse_keeps Date_now (render ws) (setReadyState CLOSED i w))
        as (_ & _ & -> & _). }
  - split; [done|]. intros key node Hget. by left.
  - split.
    + rewrite Map_keys_set. case_decide; [done|]. by apply prefix_app_r.
    + intros key node' Hget.
      destruct (Map_get_set_other _ (path data) node _ _ Hget) as [Hsame|Heq]; [by left|].
      right. by exists i, eventType, data.
Qed.

Lemma X7_store_only_grows_witness :
  Map_keys (files (page openSession)) `prefix_of` Map_keys (files (page sessionWithFile))
  /\ forall key node,
       Map_get (files (page openSession)) key = Some node ->
       Map_get (files (page sessionWithFile)) key = Some node
       \/ fileEventOn key (WsMessage 0 (file_create "src/app.tsx" "export {}")).
Proof.
  apply (X7_store_only_grows exampleClock openSession
           (WsMessage 0 (file_create "src/app.tsx" "export {}")) sessionWithFile).
  - reflexivity.
  - discriminate.
Defined.

(** ** After the reset *)

(** X8.  On the landing screen of a reachable world the sockets of earlier
    builds can neither open nor deliver a frame; they can only close or
    report an error, and that changes nothing on the page: what the reset
    cleared stays cleared until the next submission. *)
Theorem X8_landing_ignores_sockets Date_now w a :
  reachable Date_now w ->
  isBuilding (page w) = false ->
  socketEvent a = true ->
  match step Date_now w a with
  | Some w' =>
      page w' = page w /\ websocketRef w' = None
      /\ exists i, a = WsClose i \/ a = WsError i
  | None => True
  end.
Proof.
  intros Hreach Hb Hsock. apply reachable_Inv in Hreach as [Hrender Hlanding Hstale _].
  destruct (Hlanding Hb) as (_ & _ & Hnone).
  assert (forall i ws, sockets w !! i = Some ws ->
            readyState ws = CLOSING \/ readyState ws = CLOSED) as Hclosed.
  { intros i ws Hi. apply (Hstale i ws Hi). by rewrite Hnone. }
  destruct a as [value| | | |path|i|i frame|i|i]; try done; simpl;
    destruct (sockets w !! i) as [ws|] eqn:Hi; try done;
    destruct (Hclosed i ws Hi) as [Hrs|Hrs]; rewrite ?Hrs; simpl; try done;
    try (split; [done|]; split; [done|]; exists i; by right).
  unfold ws_onclose. destruct (Hrender i ws Hi) as [Hai _].
  rewrite flushAiResponse_stale by done. simpl.
  split; [done|]. split; [done|]. exists i. by left.
Qed.

Lemma X8_landing_ignores_sockets_witness :
  match step exampleClock (handleReset openSession) (WsClose 0) with
  | Some w' =>
      page w' = page (handleReset openSession) /\ websocketRef w' = None
      /\ exists i, WsClose 0 = WsClose i \/ WsClose 0 = WsError i
  | None => True
  end.
Proof.
  apply (X8_landing_ignores_sockets exampleClock (handleReset openSession) (WsClose 0)).
  - exists (openingActions ++ [Reset]). reflexivity.
  - reflexivity.
  - reflexivity.
Defined.

(** ** The keys of the chat list *)

Lemma toString_not_streaming z : JS.toString z <> "ai-streaming".
Proof.
  unfold JS.toString. intros H.
  assert (Z.to_int z <> Decimal.Pos Decimal.Nil
          /\ Z.to_int z <> Decimal.Neg Decimal.Nil) as [H1 H2].
  { split; intros Hz; pose proof (f_equal Z.of_int Hz) as Hz';
      rewrite DecimalZ.of_to in Hz'; simpl in Hz'; subst z; discriminate Hz. }
  pose proof (NilZero.isi _ H1 H2) as Hisi. rewrite H in Hisi. discriminate Hisi.
Qed.

(** X9.  In every reachable world the synthetic turn that shows the stream
    text never shares its key with a turn of the timeline, and when no two
    readings of the clock agree the keys of the displayed list, synthetic
    turn included, are pairwise distinct. *)
Theorem X9_displayed_keys Date_now w :
  reachable Date_now w ->
  ("ai-streaming" ∉ map Message.id (messages (page w)))
  /\ ((forall m n, Date_now m = Date_now n -> m = n) ->
      NoDup (map Message.id (displayedMessages (page w)))).
Proof.
  intros Hreach.
  assert ("ai-streaming" ∉ map Message.id (messages (page w))) as Hfresh.
  { destruct (reachable_Stamped Date_now w Hreach) as (ks & -> & _).
    intros Hin. apply list_elem_of_fmap in Hin as (k & Hk & _).
    symmetry in Hk. by apply toString_not_streaming in Hk. }
  split; [done|]. intros Hinj.
  pose proof (ids_unique_on_strict_clock Date_now w Hinj Hreach) as Hnodup.
  unfold displayedMessages. rewrite map_app.
  destruct (JS.truthy (aiResponse (page w))); simpl; [|by rewrite app_nil_r].
  apply NoDup_app. split; [done|]. split; [|apply NoDup_singleton].
  intros x Hx Hx'. apply list_elem_of_singleton in Hx' as ->. done.
Qed.

Lemma X9_displayed_keys_witness :
  ("ai-streaming" ∉ map Message.id (messages (page openSession)))
  /\ ((forall m n, exampleClock m = exampleClock n -> m = n) ->
      NoDup (map Message.id (displayedMessages (page openSession)))).
Proof.
  apply (X9_displayed_keys exampleClock openSession).
  exists openingActions. reflexivity.
Defined.

(** ** The explorer *)

Lemma truthy_app_l a b : JS.truthy a = true -> JS.truthy (a +:+ b) = true.
Proof. destruct a; [done|]. by rewrite append_String. Qed.

(** Going down the pieces of a text from a non-empty path spells the text
    out behind it. *)
Lemma fold_childPath_split s : forall pre,
  JS.truthy pre = true ->
  match JS.split "/" s with
  | piece :: pieces => fold_left childPath pieces (pre +:+ piece) = pre +:+ s
  | [] => True
  end.
Proof.
  induction s as [|c s IH]; intros pre Hpre; simpl.
  - done.
  - destruct (Ascii.eqb c "/") eqn:Ec.
    + apply Ascii.eqb_eq in Ec as ->.
      specialize (IH (pre +:+ "/") (truthy_app_l _ _ Hpre)).
      destruct (JS.split "/" s) as [|piece pieces] eqn:Hs.
      { by apply split_nonempty in Hs. }
      simpl. rewrite append_empty_r. unfold childPath at 2. rewrite Hpre.
      rewrite <- append_assoc', IH, append_assoc'. done.
    + specialize (IH (pre +:+ String c "") (truthy_app_l _ _ Hpre)).
      destruct (JS.split "/" s) as [|piece pieces] eqn:Hs.
      { by apply split_nonempty in Hs. }
      rewrite append_assoc' in IH. push_append_in IH.
      rewrite IH, append_assoc'. by push_append.
Qed.

Lemma stripPrefix_slash c p :
  JS.stripPrefix "/" (String c p) = if Ascii.eqb "/" c then Some p else None.
Proof. reflexivity. Qed.

Lemma split_String sep c s :
  JS.split sep (String c s) =
  if Ascii.eqb c sep then "" :: JS.split sep s
  else match JS.split sep s with
       | piece :: pieces => String c piece :: pieces
       | [] => [String c ""]
       end.
Proof. reflexivity. Qed.

Lemma joinNames_segments p :
  (JS.stripPrefix "/" p = None -> joinNames (segments p) = p)
  /\ joinNames (segments ("/" +:+ p)) = joinNames (segments p).
Proof.
  split.
  - unfold joinNames, segments. destruct p as [|c p]; [by intros _|].
    rewrite stripPrefix_slash, split_String.
    destruct (Ascii.eqb "/" c) eqn:Ec; [done|]. intros _.
    rewrite Ascii.eqb_sym in Ec. rewrite Ec.
    pose proof (fold_childPath_split p (String c "") eq_refl) as H.
    destruct (JS.split "/" p) as [|piece pieces] eqn:Hs.
    { by apply split_nonempty in Hs. }
    push_append_in H. done.
  - reflexivity.
Qed.

(** X10.  The cumulative path the explorer builds for the node of a store
    key is the key itself when the key does not start with a slash; an
    empty first segment is skipped, so a key with a leading slash gets the
    path of the key without it. *)
Theorem X10_joinNames_segments p :
  (JS.stripPrefix "/" p = None -> joinNames (segments p) = p)
  /\ joinNames (segments ("/" +:+ p)) = joinNames (segments p).
Proof. apply joinNames_segments. Qed.

Lemma X10_joinNames_segments_witness :
  joinNames (segments "src/app/page.tsx") = "src/app/page.tsx".
Proof.
  apply (proj1 (X10_joinNames_segments "src/app/page.tsx")). reflexivity.
Defined.

Lemma TreeNode_nested_ind (P : TreeNode -> Prop) :
  (forall nm ty ch, from_option (Forall P) True ch -> P (Node nm ty ch)) ->
  forall n, P n.
Proof.
  intros Hnode. fix go 1. intros [nm ty ch]. apply Hnode.
  destruct ch as [nodes|]; simpl; [|done].
  revert nodes. fix all 1. intros [|n rest]; constructor; [apply go|apply all].
Qed.

Lemma renderNode_folder expanded sel path nm nodes :
  renderNode expanded sel path (Node nm folder (Some nodes)) =
  FolderRow (childPath path nm) (Set_has expanded (childPath path nm))
  :: (if Set_has expanded (childPath path nm)
      then renderFileTree expanded sel nodes (childPath path nm)
      else []).
Proof.
  reflexivity.
Qed.

Lemma find_in level n :
  NoDup (map name level) -> n ∈ level -> find (name n) level = Some n.
Proof.
  intros Hnodup Hn. destruct (find (name n) level) as [x|] eqn:Hfind.
  - f_equal. symmetry. by eapply find_unique.
  - apply find_None in Hfind. exfalso. apply Hfind. by apply list_elem_of_fmap_2.
Qed.

Lemma elem_of_flat_map {A B} (f : A -> list B) (l : list A) (y : B) :
  y ∈ flat_map f l <-> exists x, x ∈ l /\ y ∈ f x.
Proof.
  rewrite list_elem_of_In, in_flat_map. split; intros (x & Hx & Hy); exists x;
    split; by apply list_elem_of_In.
Qed.

Section Rendering.

Variable expanded : list string.
Variable sel : string.

Lemma rowOfNode_level level n path row :
  NoDup (map name level) -> n ∈ level ->
  rowOfNode expanded n path row -> rowOfLevel expanded level path row.
Proof.
  intros Hnodup Hn Hrow. pose proof (find_in _ _ Hnodup Hn) as Hfind.
  destruct Hrow as [[Hpath Hkind]|(below & q & Hbelow & Hq & Hpath & Hkind & Hexp & Hpre)].
  - exists [name n]. split; [done|]. split; [done|]. split.
    + rewrite kindAt_cons, Hfind. by rewrite Hkind.
    + intros pre Hne Hc. destruct pre as [|a pre]; [done|].
      apply continues_cons in Hc as [_ Hc]. by apply continues_nil_r in Hc.
  - exists (name n :: q). split; [done|]. split; [done|]. split.
    + rewrite kindAt_cons, Hfind, Hbelow. by destruct q.
    + intros pre Hne Hc. destruct pre as [|a pre]; [done|].
      apply continues_cons in Hc as [-> Hc]. simpl.
      destruct pre as [|b pre]; [done|]. by apply Hpre.
Qed.

Lemma renderNode_rows n : forall path row,
  wf_node n -> row ∈ renderNode expanded sel path n -> rowOfNode expanded n path row.
Proof.
  induction n as [nm ty ch IH] using TreeNode_nested_ind. intros path row Hwf Hrow.
  inversion Hwf as [nm'|nm' nodes Hnodup Hall]; subst.
  - simpl in Hrow. apply list_elem_of_singleton in Hrow as ->. by left.
  - rewrite renderNode_folder in Hrow. simpl in IH.
    apply elem_of_cons in Hrow as [->|Hrow]; [by left|].
    destruct (Set_has expanded (childPath path nm)) eqn:Hexp;
      [|by apply not_elem_of_nil in Hrow].
    apply elem_of_flat_map in Hrow as (c & Hc & Hrow).
    rewrite Forall_forall in IH, Hall.
    destruct (rowOfNode_level nodes c (childPath path nm) row Hnodup Hc
                (IH c Hc _ _ (Hall c Hc) Hrow)) as (q & Hq & Hpath & Hkind & Hpre).
    right. exists nodes, q. done.
Qed.

(** Every row of the explorer is a node of the tree, of the kind of the
    row, reached by names whose cumulative path is the row's, and with every
    folder above it expanded. *)
Lemma renderFileTree_rows level path row :
  wf_level level ->
  row ∈ renderFileTree expanded sel level path ->
  rowOfLevel expanded level path row.
Proof.
  intros [Hnodup Hall] Hrow. apply elem_of_flat_map in Hrow as (n & Hn & Hrow).
  rewrite Forall_forall in Hall.
  eapply rowOfNode_level; [done..|]. by apply renderNode_rows; [apply Hall|].
Qed.

End Rendering.

(** Every node of a projected tree lies on the way to a key. *)
Lemma projectKeys_nodes keys : forall t q,
  projectKeys keys = Some t ->
  q <> [] ->
  kindAt q t <> None ->
  exists p, p ∈ keys /\ q `prefix_of` segments p.
Proof.
  induction keys as [|p keys IH] using rev_ind; intros t' q Hproj Hq Hkind.
  - injection Hproj as <-. by rewrite kindAt_nil_level in Hkind.
  - rewrite projectKeys_snoc in Hproj.
    destruct (projectKeys keys) as [t|] eqn:Hkeys; [|done]. simpl in Hproj.
    destruct (projectKeys_kindAt keys t Hkeys) as (Hwf & _).
    destruct (addParts_kindAt _ _ _ Hwf Hproj) as [_ Hchange].
    destruct (Hchange q Hq) as (_ & _ & H3).
    destruct (decide (continues q (segments p))) as [[Hpre _]|Hnc].
    { exists p. split; [|done]. apply elem_of_app. right. by apply list_elem_of_singleton. }
    destruct (decide (q = segments p)) as [->|Hneq].
    { exists p. split; [|done]. apply elem_of_app. right. by apply list_elem_of_singleton. }
    rewrite (H3 Hnc Hneq) in Hkind.
    destruct (IH t q eq_refl Hq Hkind) as (p0 & Hp0 & Hpre).
    exists p0. split; [|done]. apply elem_of_app. by left.
Qed.

(** A file node of a projected tree is the node of a key. *)
Lemma projectKeys_file_is_key keys t q :
  projectKeys keys = Some t ->
  q <> [] ->
  kindAt q t = Some file ->
  exists p, p ∈ keys /\ q = segments p.
Proof.
  intros Hproj Hq Hkind.
  destruct (projectKeys_nodes keys t q Hproj Hq) as (p & Hp & Hpre);
    [by rewrite Hkind|].
  exists p. split; [done|]. destruct (decide (q = segments p)) as [|Hne]; [done|].
  destruct (projectKeys_kindAt keys t Hproj) as (_ & Hfolders & _).
  assert (kindAt q t = Some folder) as Hfolder.
  { apply Hfolders; [done|]. exists p. by split. }
  congruence.
Qed.

Lemma Map_get_key m key : key ∈ Map_keys m -> exists node, Map_get m key = Some node.
Proof.
  unfold Map_keys. induction m as [|[k v] m IH]; simpl; intros Hin.
  - by apply not_elem_of_nil in Hin.
  - destruct (String.eqb k key) eqn:E; [by exists v|].
    apply String.eqb_neq in E. apply elem_of_cons in Hin as [->|Hin]; [done|]. by apply IH.
Qed.

(** X11.  Whatever folders are expanded and whatever file is selected, a
    file row of the explorer stands for a key of the store: its path is the
    cumulative path of that key's segments, and when the key does not start
    with a slash the path is the key itself, so that clicking the row
    selects a file the store has and the editor shows its content. *)
Theorem X11_file_rows_are_store_keys (store : Files) t expanded sel cp selected :
  fileTree store = Some t ->
  FileRow cp selected ∈ renderFileTree expanded sel t "" ->
  exists p,
    p ∈ Map_keys store
    /\ cp = joinNames (segments p)
    /\ (JS.stripPrefix "/" p = None ->
        cp = p
        /\ exists node,
             Map_get store cp = Some node
             /\ forall st, files st = store ->
                  currentFileContent (setSelectedFile cp st) = FileNode.content node).
Proof.
  intros Hproj Hrow. unfold fileTree in Hproj.
  destruct (projectKeys_kindAt _ _ Hproj) as (Hwf & _).
  destruct (renderFileTree_rows expanded sel t "" _ Hwf Hrow)
    as (q & Hq & Hpath & Hkind & _).
  simpl in Hpath, Hkind.
  destruct (projectKeys_file_is_key _ _ _ Hproj Hq Hkind) as (p & Hp & ->).
  exists p. split; [done|]. split; [done|]. intros Hslash.
  destruct (joinNames_segments p) as [Hjoin _]. specialize (Hjoin Hslash).
  unfold joinNames in Hjoin. rewrite Hjoin in Hpath. subst cp. split; [done|].
  destruct (Map_get_key _ _ Hp) as (node & Hnode). exists node. split; [done|].
  intros st <-. unfold currentFileContent. simpl. by rewrite Hnode.
Qed.

Lemma X11_file_rows_are_store_keys_witness :
  exists p,
    p ∈ Map_keys exampleStore
    /\ "src/app/page.tsx" = joinNames (segments p)
    /\ (JS.stripPrefix "/" p = None ->
        "src/app/page.tsx" = p
        /\ exists node,
             Map_get exampleStore "src/app/page.tsx" = Some node
             /\ forall st, files st = exampleStore ->
                  currentFileContent (setSelectedFile "src/app/page.tsx" st)
                  = FileNode.content node).
Proof.
  apply (X11_file_rows_are_store_keys exampleStore exampleTree ["src"; "src/app"] ""
           "src/app/page.tsx" false).
  - reflexivity.
  - vm_compute. right. right. left.
Defined.

(** X12.  Every row of the explorer is a node of the projected tree of the
    row's kind, reached by names whose cumulative path is the row's, and
    every folder above it is expanded.  With no folder expanded, as the
    explorer starts, the rows are root nodes only. *)
Theorem X12_rows_need_expanded_folders (store : Files) t expanded sel row :
  fileTree store = Some t ->
  row ∈ renderFileTree expanded sel t "" ->
  (exists q,
     q <> []
     /\ rowPath row = joinNames q
     /\ kindAt q t = Some (rowKind row)
     /\ forall pre, pre <> [] -> continues pre q ->
          Set_has expanded (joinNames pre) = true)
  /\ (expanded = [] -> exists n, n ∈ t /\ rowPath row = name n /\ rowKind row = type n).
Proof.
  intros Hproj Hrow. unfold fileTree in Hproj.
  destruct (projectKeys_kindAt _ _ Hproj) as (Hwf & _).
  destruct (renderFileTree_rows expanded sel t "" _ Hwf Hrow)
    as (q & Hq & Hpath & Hkind & Hpre).
  split; [by exists q|]. intros ->.
  destruct q as [|a [|b rest]]; [done| |].
  - rewrite kindAt_cons in Hkind. destruct (find a t) as [n|] eqn:Hfind; [|done].
    destruct (find_Some _ _ _ Hfind) as [Hname Hin].
    exists n. split; [done|]. split; [by rewrite Hname|]. by injection Hkind.
  - assert (continues [a] (a :: b :: rest)) as Hc.
    { apply continues_cons. split; [done|]. by apply continues_nil_l. }
    specialize (Hpre [a] ltac:(done) Hc). done.
Qed.

Lemma X12_rows_need_expanded_folders_witness :
  exists n,
    n ∈ exampleTree
    /\ rowPath (FolderRow "src" false) = name n
    /\ rowKind (FolderRow "src" false) = type n.
Proof.
  apply (proj2 (X12_rows_need_expanded_folders exampleStore exampleTree [] ""
                  (FolderRow "src" false) eq_refl ltac:(vm_compute; left))).
  reflexivity.
Defined.

Lemma Set_has_app s t q : Set_has (s ++ t) q = Set_has s q || Set_has t q.
Proof. unfold Set_has. apply existsb_app. Qed.

Lemma Set_has_delete s p q :
  Set_has (Set_delete s p) q = Set_has s q && negb (String.eqb q p).
Proof.
  unfold Set_has, Set_delete. induction s as [|x s IH]; simpl; [done|].
  destruct (String.eqb x p) eqn:Exp; simpl.
  - apply String.eqb_eq in Exp as ->. rewrite IH.
    destruct (String.eqb q p) eqn:Eqp; simpl; [by rewrite andb_false_r|done].
  - rewrite IH. destruct (String.eqb q x) eqn:Eqx; simpl; [|done].
    apply String.eqb_eq in Eqx as ->. by rewrite Exp.
Qed.

(** X13.  [toggleFolder] flips the membership of the folder it is given and
    of no other: a folder that was expanded is collapsed, one that was
    collapsed is expanded, and the set stays free of repeats. *)
Theorem X13_toggleFolder_flips_one s p :
  (forall q, Set_has (toggleFolder s p) q
             = if String.eqb q p then negb (Set_has s p) else Set_has s q)
  /\ (NoDup s -> NoDup (toggleFolder s p)).
Proof.
  unfold toggleFolder, Set_add. split.
  - intros q. destruct (Set_has s p) eqn:Hp.
    + rewrite Set_has_delete. destruct (String.eqb q p); simpl;
        [by rewrite andb_false_r|by rewrite andb_true_r].
    + rewrite Set_has_app. simpl. destruct (String.eqb q p) eqn:Eqp; simpl.
      * by rewrite orb_true_r.
      * by rewrite !orb_false_r.
  - intros Hnodup. destruct (Set_has s p) eqn:Hp.
    + unfold Set_delete. apply NoDup_ListNoDup, List.NoDup_filter.
      by apply NoDup_ListNoDup.
    + apply NoDup_app. split; [done|]. split; [|apply NoDup_singleton].
      intros x Hx Hx'. apply list_elem_of_singleton in Hx' as ->.
      unfold Set_has in Hp. apply not_true_iff_false in Hp. apply Hp.
      apply existsb_exists. exists p. split; [by apply list_elem_of_In|].
      apply String.eqb_refl.
Qed.

Lemma X13_toggleFolder_flips_one_witness :
  NoDup (toggleFolder ["src"; "src/app"] "src").
Proof.
  apply (proj2 (X13_toggleFolder_flips_one ["src"; "src/app"] "src")).
  apply (bool_decide_unpack _). vm_compute. reflexivity.
Defined.

(** ** C7 *)

(** On the landing screen of a world that keeps the invariant, nothing of a
    build is left: a step leads to such a world again. *)
Lemma step_preserves_landing Date_now w a w' :
  Inv w ->
  (isBuilding (page w) = false -> messages (page w) = [] /\ files (page w) = []) ->
  step Date_now w a = Some w' ->
  isBuilding (page w') = false -> messages (page w') = [] /\ files (page w') = [].
Proof.
  intros [Hrender Hlanding Hstale _] Hclear Hstep.
  destruct a as [value| | | |path|i|i frame|i|i]; simpl in Hstep.
  - injection Hstep as <-. done.
  - destruct (isBuilding (page w)); [done|]. injection Hstep as <-.
    destruct (handleInitialSubmit_socket Date_now (page w) w) as (target & _ & _ & ->).
    done.
  - destruct (isBuilding (page w)) eqn:Hb; [|done]. injection Hstep as <-.
    destruct (handleModificationSubmit_keeps Date_now (page w) w) as (-> & _).
    by rewrite Hb.
  - destruct (isBuilding (page w)); [|done]. injection Hstep as <-.
    intros _. unfold handleReset. by case_match.
  - destruct (isBuilding (page w)) eqn:Hb; [|done]. injection Hstep as <-.
    simpl. by rewrite Hb.
  - destruct (sockets w !! i) as [ws|]; [|done].
    destruct (ReadyState_eqb (readyState ws) CONNECTING); [|done].
    injection Hstep as <-. by rewrite ws_onopen_page.
  - destruct (sockets w !! i) as [ws|] eqn:Hi; [|done].
    destruct (ReadyState_eqb (readyState ws) OPEN) eqn:Hopen; [|done].
    apply ReadyState_eqb_eq in Hopen. injection Hstep as <-.
    destruct (ws_onmessage_frame_of_page Date_now (render ws) frame w) as (_ & _ & ->).
    intros Hb. destruct (Hlanding Hb) as (_ & _ & Hnone).
    destruct (Hstale i ws Hi); [by rewrite Hnone| |]; congruence.
  - destruct (sockets w !! i) as [ws|]; [|done]. injection Hstep as <-. done.
  - destruct (sockets w !! i) as [ws|] eqn:Hi; [|done].
    destruct (ReadyState_eqb (readyState ws) CLOSED); [done|]. injection Hstep as <-.
    unfold ws_onclose. destruct (Hrender i ws Hi) as [Hai _].
    by rewrite flushAiResponse_stale.
Qed.

(** In every reachable world that shows the landing screen, the timeline and
    the store are empty. *)
Lemma reachable_landing Date_now w :
  reachable Date_now w ->
  isBuilding (page w) = false ->
  messages (page w) = [] /\ files (page w) = [].
Proof.
  intros [actions Hrun].
  assert (Inv w
          /\ (isBuilding (page w) = false ->
              messages (page w) = [] /\ files (page w) = [])) as [_ H]; [|done].
  revert Hrun.
  assert (Inv initialWorld
          /\ (isBuilding (page initialWorld) = false ->
              messages (page initialWorld) = [] /\ files (page initialWorld) = []))
    as H0 by (split; [apply Inv_initial|done]).
  revert H0. generalize initialWorld.
  induction actions as [|a rest IH]; simpl; intros w0 H0 Hrun.
  - by injection Hrun as <-.
  - destruct (step Date_now w0 a) as [w1|] eqn:Hstep; [|done].
    destruct H0 as [HI0 Hc0]. apply (IH w1); [|done].
    split; [by eapply step_preserves_Inv|by eapply step_preserves_landing].
Qed.

(** [ws.close()] leaves a socket that is closing or closed as it is. *)
Lemma WebSocket_close_closed ws :
  readyState ws = CLOSING \/ readyState ws = CLOSED -> WebSocket_close ws = ws.
Proof. unfold WebSocket_close. by intros [-> | ->]. Qed.

Lemma WebSocket_close_state ws :
  let ws' := WebSocket_close ws in
  (readyState ws' = CLOSING \/ readyState ws' = CLOSED)
  /\ (live ws -> readyState ws' = CLOSING)
  /\ url ws' = url ws /\ render ws' = render ws /\ sent ws' = sent ws.
Proof.
  unfold WebSocket_close, live. destruct (readyState ws) eqn:Hrs; simpl; rewrite ?Hrs;
    repeat split; auto; intros [?|?]; congruence.
Qed.

(** C7.  After [handleReset] in any reachable world [w]:
    - the page state is the initial one but for the text of the input box,
      which the handler does not touch: the timeline is empty, no file is
      stored, no stream text is pending, no file is selected, [isBuilding]
      and [isLive] are both false, so the session is idle and the next
      submission starts a build that is not live;
    - [websocketRef] is cleared, and the sockets are those of [w], none
      dropped and none added, each after [close()]: a socket that was
      connecting or open is closing, none is left connecting or open, and
      what was sent on them is kept;
    - the handler is one step of the page: pressing the button leads from
      [w] to that world with no world in between, and no reachable world
      shows a reset done in part: whenever the landing screen is shown, the
      timeline, the store, the stream text, the selection, [isLive] and the
      ref are all cleared and every socket is closing or closed. *)
Theorem C7_reset_complete Date_now w :
  reachable Date_now w ->
  let w' := handleReset w in
  (page w' = setInput (input (page w)) initialState
   /\ messages (page w') = []
   /\ files (page w') = []
   /\ aiResponse (page w') = ""
   /\ selectedFile (page w') = ""
   /\ isBuilding (page w') = false
   /\ isLive (page w') = false
   /\ sessionState (page w') = Idle
   /\ exists w'', step Date_now w' InitialSubmit = Some w''
                  /\ sessionState (page w'') = Building)
  /\ (websocketRef w' = None
      /\ sockets w' = map WebSocket_close (sockets w)
      /\ length (sockets w') = length (sockets w)
      /\ forall i ws, sockets w !! i = Some ws ->
           exists ws',
             sockets w' !! i = Some ws'
             /\ (readyState ws' = CLOSING \/ readyState ws' = CLOSED)
             /\ (live ws -> readyState ws' = CLOSING)
             /\ url ws' = url ws /\ sent ws' = sent ws)
  /\ ((isBuilding (page w) = true -> step Date_now w Reset = Some w')
      /\ forall v, reachable Date_now v -> isBuilding (page v) = false ->
           messages (page v) = []
           /\ files (page v) = []
           /\ aiResponse (page v) = ""
           /\ selectedFile (page v) = ""
           /\ isLive (page v) = false
           /\ websocketRef v = None
           /\ forall i ws, sockets v !! i = Some ws ->
                readyState ws = CLOSING \/ readyState ws = CLOSED).
Proof.
  intros Hreach w'. subst w'. pose proof (reachable_Inv _ _ Hreach) as [_ _ Hstale _].
  assert (sockets (handleReset w) = map WebSocket_close (sockets w)) as Hsockets.
  { unfold handleReset. destruct (websocketRef w) as [k|] eqn:Hk; simpl.
    - apply list_eq. intros j. rewrite list_lookup_fmap.
      destruct (decide (k = j)) as [->|Hne].
      + by rewrite list_lookup_alter_eq.
      + rewrite list_lookup_alter_ne by done.
        destruct (sockets w !! j) as [ws|] eqn:Hj; simpl; [|done].
        rewrite WebSocket_close_closed; [done|]. apply (Hstale j ws Hj). congruence.
    - apply list_eq. intros j. rewrite list_lookup_fmap.
      destruct (sockets w !! j) as [ws|] eqn:Hj; simpl; [|done].
      rewrite WebSocket_close_closed; [done|]. by apply (Hstale j ws Hj). }
  assert (page (handleReset w) = setInput (input (page w)) initialState) as Hpage.
  { unfold handleReset. by destruct (websocketRef w). }
  split; [|split].
  - rewrite Hpage. repeat split.
    exists (handleInitialSubmit Date_now (page (handleReset w)) (handleReset w)).
    split; [unfold step; by rewrite Hpage|].
    unfold sessionState.
    destruct (handleInitialSubmit_socket Date_now (page (handleReset w)) (handleReset w))
      as (target & _ & _ & ->).
    destruct (handleInitialSubmit_keeps Date_now (page (handleReset w)) (handleReset w))
      as (-> & _).
    by rewrite Hpage.
  - split; [unfold handleReset; by destruct (websocketRef w) eqn:Hk|].
    split; [done|]. split; [by rewrite Hsockets, length_map|].
    intros i ws Hi. exists (WebSocket_close ws).
    rewrite Hsockets, list_lookup_fmap, Hi.
    destruct (WebSocket_close_state ws) as (H1 & H2 & H3 & _ & H4). done.
  - split; [intros Hb; simpl; by rewrite Hb|].
    intros v Hv Hb.
    destruct (reachable_landing _ _ Hv Hb) as [Hm Hf].
    destruct (reachable_flags _ _ Hv) as [Hlive _].
    pose proof (reachable_Inv _ _ Hv) as [_ Hlanding Hstale' _].
    destruct (Hlanding Hb) as (Hai & Hsel & Hnone).
    repeat split; try done.
    + destruct (isLive (page v)); [|done]. specialize (Hlive eq_refl). congruence.
    + intros i ws Hi. apply (Hstale' i ws Hi). by rewrite Hnone.
Qed.

Lemma C7_reset_complete_witness :
  reachable exampleClock openSession
  /\ page (handleReset openSession) = setInput "" initialState
  /\ isLive (page (handleReset openSession)) = false
  /\ sockets (handleReset openSession)
     = [mkWebSocket CLOSING "https://example.com" (render_of openSession)
          [Start "https://example.com"]]
  /\ step exampleClock openSession Reset = Some (handleReset openSession).
Proof.
  assert (reachable exampleClock openSession) as Hreach.
  { exists openingActions. reflexivity. }
  split; [exact Hreach|].
  destruct (C7_reset_complete exampleClock openSession Hreach)
    as ((Hpage & _ & _ & _ & _ & _ & Hlive & _) & (_ & Hsockets & _) & (Hstep & _)).
  split; [exact Hpage|]. split; [exact Hlive|]. split; [exact Hsockets|].
  apply Hstep. reflexivity.
Defined.
